(** * The RSS import service: [RssModule] and its storage

    A shallow embedding of [src/classes/RssModule.ts] (the class
    [RssModule]) together with the two tables created by the migrations
    ([articles] with its unique index on [externalId], and [imports]).

    Conventions of the model.
    - A string is the sequence of its code units; [String.length] is the
      [length] property and the characters of a string are what
      [for (let letter of word)] visits.
    - A value that may be [undefined] or [null] is an [option]; the driver
      sends both to the server as SQL NULL.
    - A method that can throw returns a [Completion]; a method that talks
      to the pool or the server is a function from the [World] before to
      the completion and the [World] after.
    - The server is modelled by what the migrations declare: serial ids,
      NOT NULL columns and the unique index.  Timestamps are kept as the
      text or the clock value the statement carried.  Transient failures
      (network, pool exhaustion) are not part of the model. *)

From stdpp Require Import gmap strings list.
From Stdlib Require Import Ascii String.

Local Open Scope string_scope.

(** ** Strings *)

Module JsString.

(** [s.split(sep)] for a separator of one code unit: the pieces between
    the separators, empty pieces included; the empty string gives one
    empty piece. *)
Fixpoint split (sep : ascii) (s : string) : list string :=
  match s with
  | EmptyString => [EmptyString]
  | String c rest =>
      if Ascii.eqb c sep then EmptyString :: split sep rest
      else match split sep rest with
           | w :: ws => String c w :: ws
           | [] => [String c EmptyString]
           end
  end.

(** [c] occurs in [s]. *)
Fixpoint occurs (c : ascii) (s : string) : Prop :=
  match s with
  | EmptyString => False
  | String c' rest => c' = c \/ occurs c rest
  end.

(** [s.startsWith(p)] *)
Definition startsWith (p s : string) : bool := String.prefix p s.

(** [arr.includes(x)] on an array of strings. *)
Definition includes (arr : list string) (x : string) : bool :=
  existsb (String.eqb x) arr.

End JsString.

(** ** [wordWithMostVowels] *)

(** [const vowels = ['a', 'e', 'i', 'o', 'u', 'y']] *)
Definition vowels : list ascii :=
  ["a"; "e"; "i"; "o"; "u"; "y"]%char.

(** The inner loop: [vowelCount] after all letters of [word]. *)
Fixpoint vowelCount (word : string) : nat :=
  match word with
  | EmptyString => 0
  | String letter rest =>
      if existsb (Ascii.eqb letter) vowels
      then S (vowelCount rest) else vowelCount rest
  end.

(** The two variables the outer loop updates:
    [(wordWithMostVowels, mostVowels)]. *)
Definition Best : Type := string * nat.

(** One turn of the outer loop. *)
Definition consider (st : Best) (word : string) : Best :=
  let '(best, mostVowels) := st in
  let count := vowelCount word in
  if Nat.ltb mostVowels count then (word, count)
  else if Nat.eqb count mostVowels
          && Nat.ltb (String.length best) (String.length word)
       then (word, mostVowels)
       else (best, mostVowels).

Definition wordWithMostVowels (title : string) : string :=
  fst (fold_left consider (JsString.split " " title) ("", 0)).

(** [w] is strictly better than [best]: more vowels, or as many and
    strictly longer.  This is the test under which the loop replaces its
    candidate. *)
Definition beats (w best : string) : Prop :=
  vowelCount best < vowelCount w
  \/ (vowelCount w = vowelCount best
      /\ String.length best < String.length w).

(** The same function with the title split the way the specification
    words it, on whitespace: every white-space character separates. *)
Definition is_whitespace (c : ascii) : bool :=
  match nat_of_ascii c with
  | 9 | 10 | 11 | 12 | 13 | 32 => true
  | _ => false
  end.

Fixpoint split_whitespace (s : string) : list string :=
  match s with
  | EmptyString => [EmptyString]
  | String c rest =>
      if is_whitespace c then EmptyString :: split_whitespace rest
      else match split_whitespace rest with
           | w :: ws => String c w :: ws
           | [] => [String c EmptyString]
           end
  end.

Definition wordWithMostVowels_on_whitespace (title : string) : string :=
  fst (fold_left consider (split_whitespace title) ("", 0)).

(** A title of two pieces held together by a tab: the source sees one
    word and returns it whole, a split on whitespace sees two and returns
    the first. *)
Definition tab_title : string := String "a" (String "009" "bb").

(** ** Values, errors and completions *)

(** What a caller may pass where the source says [url: any]. *)
Inductive JsValue :=
| JsUndefined
| JsNull
| JsBoolean (b : bool)
| JsNumber (n : Z)
| JsNaN
| JsBigInt (n : Z)
| JsString (s : string)
| JsSymbol
| JsObject.

(** [!v] *)
Definition falsy (v : JsValue) : bool :=
  match v with
  | JsUndefined | JsNull | JsNaN => true
  | JsBoolean b => negb b
  | JsNumber n | JsBigInt n => Z.eqb n 0
  | JsString s => String.eqb s ""
  | JsSymbol | JsObject => false
  end.

(** [typeof v === 'string'] *)
Definition typeof_string (v : JsValue) : bool :=
  match v with
  | JsString _ => true
  | _ => false
  end.

(** What can be thrown: [new Error(message)], the [TypeError] of
    [new URL], and the driver's error carrying the server's SQLSTATE in
    [code]. *)
Inductive Error :=
| JsError (message : string)
| TypeError (message : string)
| DatabaseError (sqlstate : string).

(** [error.code] *)
Definition code (e : Error) : option string :=
  match e with
  | DatabaseError c => Some c
  | _ => None
  end.

Inductive Completion (A : Type) :=
| Normal (a : A)
| Throw (e : Error).
Arguments Normal {A} a.
Arguments Throw {A} e.

(** ** The parsed feed *)

Module Image.
Record t := { url : option string }.
End Image.

(** An entry of the feed: its text properties by name ([item.title],
    [item[this.primaryKey]], ...) and its [image] object. *)
Module Item.
Record t := { props : gmap string string; image : option Image.t }.
End Item.

(** The document the parser returns: [items], the feed's [image] and the
    feed's own text properties. *)
Module Feed.
Record t := {
  items : option (list Item.t);
  image : option Image.t;
  props : gmap string string
}.
End Feed.

(** [x.image?.url] *)
Definition image_url (img : option Image.t) : option string :=
  match img with
  | Some i => Image.url i
  | None => None
  end.

(** [a ?? b] with [b] itself possibly absent, and with [b] a value. *)
Definition nullish_opt {A} (a b : option A) : option A :=
  match a with
  | Some x => Some x
  | None => b
  end.

Definition nullish {A} (a : option A) (b : A) : A :=
  match a with
  | Some x => x
  | None => b
  end.

(** ** The tables *)

(** A clock value ([new Date()], [now()]). *)
Definition Date : Type := nat.

Module Articles.
Record Row := {
  id : nat;
  externalId : string;
  importDate : Date;
  title : string;
  description : string;
  publicationDate : string;
  link : string;
  mainPicture : option string
}.
End Articles.

(** [rawContent] holds [JSON.stringify(results)]; the model keeps the
    document that was serialised. *)
Module Imports.
Record Row := {
  id : nat;
  importDate : Date;
  rawContent : Feed.t
}.
End Imports.

Record Database := {
  articles : list Articles.Row;
  articles_id_seq : nat;
  imports : list Imports.Row;
  imports_id_seq : nat
}.

(** The four statements the class sends, with their parameters in the
    order of the source. *)
Inductive Statement :=
| SelectArticles
| InsertImport (rawContent : Feed.t)
| InsertArticle (externalId : option string) (importDate : Date)
    (title description publicationDate link mainPicture : option string)
| UpdateArticle (title description publicationDate link mainPicture
    externalId : option string).

(** [externalId] is taken: the unique index refuses a second one. *)
Definition has_externalId (k : string) (rows : list Articles.Row) : bool :=
  existsb (fun r => String.eqb (Articles.externalId r) k) rows.

(** [UPDATE articles SET ... WHERE externalId = k] on one row. *)
Definition update_row (k t d p l : string) (m : option string)
    (r : Articles.Row) : Articles.Row :=
  if String.eqb (Articles.externalId r) k then
    {| Articles.id := Articles.id r;
       Articles.externalId := Articles.externalId r;
       Articles.importDate := Articles.importDate r;
       Articles.title := t;
       Articles.description := d;
       Articles.publicationDate := p;
       Articles.link := l;
       Articles.mainPicture := m |}
  else r.

(** The server executing one statement at time [now].  An INSERT draws
    its id from the sequence before the row is checked, so a refused
    INSERT still uses up an id.  SQLSTATE 23502 is a NOT NULL violation,
    23505 a violation of the unique index. *)
Definition execute (now : Date) (s : Statement) (d : Database)
    : Completion (list Articles.Row) * Database :=
  match s with
  | SelectArticles => (Normal (articles d), d)
  | InsertImport raw =>
      (Normal [],
       {| articles := articles d;
          articles_id_seq := articles_id_seq d;
          imports := imports d ++
            [{| Imports.id := imports_id_seq d;
                Imports.importDate := now;
                Imports.rawContent := raw |}];
          imports_id_seq := S (imports_id_seq d) |})
  | InsertArticle k date t dsc p l m =>
      let d1 := {| articles := articles d;
                   articles_id_seq := S (articles_id_seq d);
                   imports := imports d;
                   imports_id_seq := imports_id_seq d |} in
      match k, t, dsc, p, l with
      | Some k, Some t, Some dsc, Some p, Some l =>
          if has_externalId k (articles d)
          then (Throw (DatabaseError "23505"), d1)
          else (Normal [],
                {| articles := articles d ++
                     [{| Articles.id := articles_id_seq d;
                         Articles.externalId := k;
                         Articles.importDate := date;
                         Articles.title := t;
                         Articles.description := dsc;
                         Articles.publicationDate := p;
                         Articles.link := l;
                         Articles.mainPicture := m |}];
                   articles_id_seq := S (articles_id_seq d);
                   imports := imports d;
                   imports_id_seq := imports_id_seq d |})
      | _, _, _, _, _ => (Throw (DatabaseError "23502"), d1)
      end
  | UpdateArticle t dsc p l m k =>
      match k with
      | None => (Normal [], d)
      | Some k =>
          if has_externalId k (articles d) then
            match t, dsc, p, l with
            | Some t, Some dsc, Some p, Some l =>
                (Normal [],
                 {| articles := map (update_row k t dsc p l m) (articles d);
                    articles_id_seq := articles_id_seq d;
                    imports := imports d;
                    imports_id_seq := imports_id_seq d |})
            | _, _, _, _ => (Throw (DatabaseError "23502"), d)
            end
          else (Normal [], d)
      end
  end.

(** ** The pool and the world *)

(** What the pool and the server saw, oldest first. *)
Inductive Event :=
| Connect
| Query (s : Statement)
| Release.

(** [held] counts the clients checked out of the pool and not yet
    released. *)
Record World := {
  db : Database;
  held : nat;
  log : list Event
}.

Definition IO (A : Type) : Type := World -> Completion A * World.

Definition ret {A} (a : A) : IO A := fun w => (Normal a, w).

Definition throw {A} (e : Error) : IO A := fun w => (Throw e, w).

Definition bind {A B} (m : IO A) (k : A -> IO B) : IO B :=
  fun w =>
    match m w with
    | (Normal a, w1) => k a w1
    | (Throw e, w1) => (Throw e, w1)
    end.

Notation "'let*' x ':=' m 'in' k" := (bind m (fun x => k))
  (at level 10, x name, m at level 100, k at level 200, only parsing).

(** [try { body } catch (error) { handler }] *)
Definition try_catch {A} (body : IO A) (handler : Error -> IO A) : IO A :=
  fun w =>
    match body w with
    | (Normal a, w1) => (Normal a, w1)
    | (Throw e, w1) => handler e w1
    end.

(** [try { body } finally { cleanup }] where [cleanup] has no [return]:
    the completion of [body] stands unless [cleanup] throws. *)
Definition try_finally {A} (body : IO A) (cleanup : IO unit) : IO A :=
  fun w =>
    match body w with
    | (r, w1) =>
        match cleanup w1 with
        | (Normal _, w2) => (r, w2)
        | (Throw e, w2) => (Throw e, w2)
        end
    end.

(** [try { body } finally { return v }]: the [return] of the [finally]
    block replaces the completion of [body], a throw included. *)
Definition try_finally_return {A B} (body : IO A) (v : B) : IO B :=
  fun w =>
    match body w with
    | (_, w1) => (Normal v, w1)
    end.

(** [pool.connect()] *)
Definition pool_connect : IO unit :=
  fun w => (Normal tt,
            {| db := db w; held := S (held w); log := log w ++ [Connect] |}).

(** [client.query(statement, data)] *)
Definition client_query (now : Date) (s : Statement)
    : IO (list Articles.Row) :=
  fun w =>
    match execute now s (db w) with
    | (r, d) =>
        (r, {| db := d; held := held w; log := log w ++ [Query s] |})
    end.

(** [client.release()] *)
Definition client_release : IO unit :=
  fun w => (Normal tt,
            {| db := db w; held := pred (held w); log := log w ++ [Release] |}).

(** ** The class *)

Record RssModule := {
  url : string;
  primaryKey : string;
  supportedRssFeeds : list string
}.

(** [isSupportedFeed]: [this.supportedRssFeeds.includes(feedUrl)] *)
Definition isSupportedFeed (this : RssModule) (feedUrl : string) : bool :=
  JsString.includes (supportedRssFeeds this) feedUrl.

(** The URL [import] works with: [url || this.url]. *)
Definition resolve (this : RssModule) (u : option string) : string :=
  match u with
  | Some u => if String.eqb u "" then url this else u
  | None => url this
  end.

Section Platform.

(** The platform's URL parser: whether [new URL(s)] returns (it throws a
    [TypeError] otherwise). *)
Variable URL_parses : string -> bool.

(** The feed parser [parser.parseURL]: the document found at a URL, or
    the error it rejects with. *)
Variable parseURL : string -> Completion Feed.t.

(** The clock. *)
Variable now : Date.

(** [new URL(s)], kept for its completion only. *)
Definition new_URL (s : string) : Completion unit :=
  if URL_parses s then Normal tt else Throw (TypeError "Invalid URL").

(** [isValidUrl], with its completion made explicit. *)
Definition isValidUrl (this : RssModule) (v : JsValue) : Completion bool :=
  if falsy v || negb (typeof_string v) then Normal false
  else match v with
       | JsString s =>
           if negb (JsString.startsWith "http://" s)
              && negb (JsString.startsWith "https://" s)
           then Normal false
           else match new_URL s with
                | Normal _ => Normal (isSupportedFeed this s)
                | Throw _ => Normal false
                end
       | _ => Normal false
       end.

(** [!this.isValidUrl(v)] and [this.isValidUrl(v)] used as a condition:
    a throw would propagate, a value is the condition. *)
Definition valid (this : RssModule) (v : JsValue) : bool :=
  match isValidUrl this v with
  | Normal b => b
  | Throw _ => false
  end.

(** The constructor.  A property initialiser sets [url] to the empty
    string, [primaryKey] to ["guid"] and the list of supported feeds. *)
Definition new_RssModule (u k : option string) : RssModule :=
  let this := {| url := "";
                 primaryKey := "guid";
                 supportedRssFeeds :=
                   ["https://www.lemonde.fr/rss/une.xml";
                    "https://www.theguardian.com/world/europe-news/rss"] |} in
  let this :=
    match u with
    | Some u =>
        if negb (String.eqb u "") && valid this (JsString u)
        then {| url := u;
                primaryKey := primaryKey this;
                supportedRssFeeds := supportedRssFeeds this |}
        else this
    | None => this
    end in
  match k with
  | Some k =>
      if negb (String.eqb k "")
      then {| url := url this;
              primaryKey := k;
              supportedRssFeeds := supportedRssFeeds this |}
      else this
  | None => this
  end.

(** [runQuery]: a client of its own, released in [finally]. *)
Definition runQuery (s : Statement) : IO (list Articles.Row) :=
  let* client := pool_connect in
  try_finally (client_query now s) client_release.

(** The parameters of the INSERT for one entry. *)
Definition insert_of (this : RssModule) (results : Feed.t) (item : Item.t)
    : Statement :=
  InsertArticle (Item.props item !! primaryKey this) now
    (Item.props item !! "title")
    (Item.props item !! "contentSnippet")
    (Item.props item !! "pubDate")
    (Item.props item !! "link")
    (Some (nullish
             (nullish_opt (image_url (Item.image item))
                          (image_url (Feed.image results)))
             "")).

(** The parameters of the UPDATE for one entry. *)
Definition update_of (this : RssModule) (item : Item.t) : Statement :=
  UpdateArticle
    (Item.props item !! "title")
    (Item.props item !! "contentSnippet")
    (Item.props item !! "pubDate")
    (Item.props item !! "link")
    (Some (nullish (image_url (Item.image item)) ""))
    (Item.props item !! primaryKey this).

(** The body of the [for] loop of [saveImportRequest]. *)
Definition save_item (this : RssModule) (results : Feed.t) (item : Item.t)
    : IO unit :=
  try_catch
    (let* _ := client_query now (insert_of this results item) in ret tt)
    (fun error =>
       match code error with
       | Some c =>
           if String.eqb c "23505"
           then let* _ := client_query now (update_of this item) in ret tt
           else throw error
       | None => throw error
       end).

(** [for (let item of items) { ... }] *)
Fixpoint save_items (this : RssModule) (results : Feed.t)
    (items : list Item.t) : IO unit :=
  match items with
  | [] => ret tt
  | item :: rest =>
      let* _ := save_item this results item in
      save_items this results rest
  end.

Definition no_items_error : Error :=
  JsError "No items found in the RSS feed, so no articles were imported".

(** [saveImportRequest] *)
Definition saveImportRequest (this : RssModule) (results : Feed.t)
    : IO Feed.t :=
  let* _ := runQuery (InsertImport results) in
  match Feed.items results with
  | None => throw no_items_error
  | Some items =>
      let* client := pool_connect in
      let* _ := save_items this results items in
      let* _ := client_release in
      ret results
  end.

Definition malformed_url_error : Error :=
  JsError ("No URL was provided or it was malformed. Construct the class "
           ++ "with a URL that starts with http/https.").

(** [import].  The source calls [saveImportRequest] without awaiting it,
    inside [try { } catch (error) { } finally { return results }]: the
    value [import] settles to is [results] whatever becomes of the save.
    The world returned is the one in which the save has run to its end,
    that is, no other request touches the storage in between. *)
Definition import (this : RssModule) (u : option string) (save : bool)
    : IO Feed.t :=
  let u := resolve this u in
  match isValidUrl this (JsString u) with
  | Throw e => throw e
  | Normal false => throw malformed_url_error
  | Normal true =>
      match parseURL u with
      | Throw e => throw e
      | Normal results =>
          if negb save then ret results
          else try_finally_return
                 (try_catch
                    (let* _ := saveImportRequest this results in ret tt)
                    (fun error => ret tt))
                 results
      end
  end.

(** A row as [get] returns it, with [wordwithmostvowels] attached. *)
Record ArticleView := {
  row : Articles.Row;
  wordwithmostvowels : string
}.

(** [get] *)
Definition get : IO (list ArticleView) :=
  let* rows := runQuery SelectArticles in
  ret (map (fun r => {| row := r;
                        wordwithmostvowels :=
                          wordWithMostVowels (Articles.title r) |}) rows).

End Platform.

(** ** Vocabulary of the statements below *)

(** The external ids stored, in table order. *)
Definition externalIds (w : World) : list string :=
  map Articles.externalId (articles (db w)).

(** The five NOT NULL values of the INSERT for an entry, when the entry
    has them all: external id, title, description, publication date and
    link. *)
Definition entry_values (this : RssModule) (item : Item.t)
    : option (string * string * string * string * string) :=
  match Item.props item !! primaryKey this,
        Item.props item !! "title",
        Item.props item !! "contentSnippet",
        Item.props item !! "pubDate",
        Item.props item !! "link" with
  | Some k, Some t, Some d, Some p, Some l => Some (k, t, d, p, l)
  | _, _, _, _, _ => None
  end.

(** The table after a refused INSERT: only the sequence moved. *)
Definition skip_id (d : Database) : Database :=
  {| articles := articles d;
     articles_id_seq := S (articles_id_seq d);
     imports := imports d;
     imports_id_seq := imports_id_seq d |}.

(** The world once the ledger row is written. *)
Definition after_ledger (now : Date) (results : Feed.t) (w : World) : World :=
  snd (runQuery now (InsertImport results) w).

(** The world in which the loop starts: ledger row written, one client
    checked out. *)
Definition loop_start (now : Date) (results : Feed.t) (w : World) : World :=
  snd (pool_connect (after_ledger now results w)).

(** An event that reads or writes the [imports] table. *)
Definition is_ledger_write (e : Event) : bool :=
  match e with
  | Query (InsertImport _) => true
  | _ => false
  end.

(** A statement on the [articles] table. *)
Definition is_article_write (e : Event) : bool :=
  match e with
  | Query (InsertArticle _ _ _ _ _ _ _) => true
  | Query (UpdateArticle _ _ _ _ _ _) => true
  | _ => false
  end.

(** A failed save reaches the caller of [import]: if [saveImportRequest]
    on the fetched document throws a storage error other than the unique
    violation, [import] throws as well. *)
Definition import_surfaces_save_failure
    (U : string -> bool) (parseURL : string -> Completion Feed.t)
    (now : Date) (this : RssModule) (u : option string) (w : World) : Prop :=
  forall results c,
    isValidUrl U this (JsString (resolve this u)) = Normal true ->
    parseURL (resolve this u) = Normal results ->
    fst (saveImportRequest now this results w) = Throw (DatabaseError c) ->
    c <> "23505" ->
    exists e, fst (import U parseURL now this u true w) = Throw e.

(** ** Sample data *)

Definition lemonde : string := "https://www.lemonde.fr/rss/une.xml".

(** A URL parser that accepts everything it is given. *)
Definition lenient : string -> bool := fun _ => true.

Definition entry (guid : string) (title : option string)
    (img : option Image.t) : Item.t :=
  {| Item.props :=
       list_to_map
         (List.app
            match title with
            | Some t => [("title", t)]
            | None => []
            end
            [("guid", guid);
             ("contentSnippet", "text of " ++ guid);
             ("pubDate", "Mon, 02 Nov 2026 10:00:00 GMT");
             ("link", "https://example.org/" ++ guid)]);
     Item.image := img |}.

Definition feed_picture : string := "https://example.org/feed.png".

(** Two entries without a picture of their own, in a feed that has one. *)
Definition sample_feed : Feed.t :=
  {| Feed.items := Some [entry "g1" (Some "First") None;
                         entry "g2" (Some "Second") None];
     Feed.image := Some {| Image.url := Some feed_picture |};
     Feed.props := {[ "title" := "Sample" ]} |}.

(** Three entries, the second without a title. *)
Definition untitled_feed : Feed.t :=
  {| Feed.items := Some [entry "g1" (Some "First") None;
                         entry "g2" None None;
                         entry "g3" (Some "Third") None];
     Feed.image := None;
     Feed.props := {[ "title" := "Sample" ]} |}.

Definition empty_world : World :=
  {| db := {| articles := []; articles_id_seq := 1;
              imports := []; imports_id_seq := 1 |};
     held := 0;
     log := [] |}.

(** A world with two articles stored, the first under the id ["g1"]. *)
Definition stocked_world : World :=
  {| db := {| articles :=
                [{| Articles.id := 1;
                    Articles.externalId := "g1";
                    Articles.importDate := 50;
                    Articles.title := "Old title";
                    Articles.description := "old text";
                    Articles.publicationDate := "Sun, 01 Nov 2026 09:00:00 GMT";
                    Articles.link := "https://example.org/old";
                    Articles.mainPicture := Some feed_picture |};
                 {| Articles.id := 2;
                    Articles.externalId := "g0";
                    Articles.importDate := 50;
                    Articles.title := "Other";
                    Articles.description := "other text";
                    Articles.publicationDate := "Sun, 01 Nov 2026 08:00:00 GMT";
                    Articles.link := "https://example.org/g0";
                    Articles.mainPicture := None |}];
              articles_id_seq := 3;
              imports := [];
              imports_id_seq := 1 |};
     held := 0;
     log := [] |}.

Definition module0 : RssModule := new_RssModule lenient None None.

(** The feed parser finding [feed] at every URL. *)
Definition serving (feed : Feed.t) : string -> Completion Feed.t :=
  fun _ => Normal feed.

(** ** The HTTP handlers of [app.ts] *)

(** [req.query.siteRssUrl] as the query parser leaves it: absent, one
    string, several strings (the parameter repeated), or a nested
    object. *)
Inductive QueryValue :=
| QAbsent
| QString (s : string)
| QStrings (l : list string)
| QObject.

Definition query_value (q : QueryValue) : JsValue :=
  match q with
  | QAbsent => JsUndefined
  | QString s => JsString s
  | QStrings _ | QObject => JsObject
  end.

(** [String(req.query.siteRssUrl)] *)
Definition String_of (q : QueryValue) : string :=
  match q with
  | QAbsent => "undefined"
  | QString s => s
  | QStrings l => String.concat "," l
  | QObject => "[object Object]"
  end.

Record Request := { siteRssUrl : QueryValue }.

(** What a handler sends. *)
Inductive Body :=
| ErrorBody (error : string)
| FeedBody (feed : Feed.t)
| ArticlesBody (rows : list ArticleView).

Record Response := { status : nat; body : Body }.

(** The result of [isValid]: [true], or the message. *)
Inductive Validation :=
| Valid
| Invalid (message : string).

Definition required_message : string :=
  "The siteRssUrl parameter is required and must be a string".

Definition unsupported_message : string :=
  "The siteRssUrl parameter must be a valid and supported URL".

Section App.

Variable URL_parses : string -> bool.
Variable parseURL : string -> Completion Feed.t.
Variable now : Date.

(** [const rssModule = new RssModule()] *)
Definition rssModule : RssModule := new_RssModule URL_parses None None.

(** [isValid] of [app.ts]. *)
Definition isValid (req : Request) : Validation :=
  let v := query_value (siteRssUrl req) in
  if falsy v || negb (typeof_string v) then Invalid required_message
  else if negb (valid URL_parses rssModule v) then Invalid unsupported_message
  else Valid.

(** The handler of [POST /api/articles/import].  A throw is a rejection
    of the handler: nothing is sent. *)
Definition post_import (req : Request) : IO Response :=
  match isValid req with
  | Invalid validationError =>
      ret {| status := 422; body := ErrorBody validationError |}
  | Valid =>
      let siteRssUrl := String_of (siteRssUrl req) in
      let* importedRssFeed :=
        import URL_parses parseURL now rssModule (Some siteRssUrl) true in
      ret {| status := 201; body := FeedBody importedRssFeed |}
  end.


End App.

(** ** Vocabulary of the further statements *)

(** A row keeps what no statement of the class rewrites. *)
Definition same_identity (r r' : Articles.Row) : Prop :=
  Articles.id r' = Articles.id r
  /\ Articles.externalId r' = Articles.externalId r
  /\ Articles.importDate r' = Articles.importDate r.



(** The rows stored under the external id [k]. *)
Definition rows_of (k : string) (w : World) : list Articles.Row :=
  List.filter (fun r => String.eqb (Articles.externalId r) k)
              (articles (db w)).

(** What the UPDATEs of the loop over [items] make of a row, entry after
    entry, up to the first entry that lacks a NOT NULL value. *)
Fixpoint rewrite_row (this : RssModule) (items : list Item.t)
    (r : Articles.Row) : Articles.Row :=
  match items with
  | [] => r
  | item :: rest =>
      match entry_values this item with
      | Some (k, t, d, p, l) =>
          rewrite_row this rest
            (update_row k t d p l
               (Some (nullish (image_url (Item.image item)) "")) r)
      | None => r
      end
  end.

(** Whether one of those UPDATEs is for the external id [k]. *)
Fixpoint touches (this : RssModule) (items : list Item.t) (k : string)
    : bool :=
  match items with
  | [] => false
  | item :: rest =>
      match entry_values this item with
      | Some (k', _, _, _, _) => String.eqb k' k || touches this rest k
      | None => false
      end
  end.

(** The entries of a document, none when it has no [items]. *)
Definition items_of (results : Feed.t) : list Item.t :=
  match Feed.items results with
  | Some items => items
  | None => []
  end.

(** The serial ids are pairwise distinct and below the sequence. *)
Definition ids_fresh (d : Database) : Prop :=
  Forall (fun r => Articles.id r < articles_id_seq d) (articles d)
  /\ NoDup (map Articles.id (articles d)).

(** A document whose third entry repeats the id of the first. *)
Definition repeating_feed : Feed.t :=
  {| Feed.items := Some [entry "g1" (Some "First") None;
                         entry "g2" (Some "Second") None;
                         entry "g1" (Some "First, revised") None];
     Feed.image := None;
     Feed.props := {[ "title" := "Sample" ]} |}.

(** * Properties *)

(** ** Strings and [wordWithMostVowels] *)

Lemma split_not_nil sep s : JsString.split sep s <> [].
Proof.
  destruct s as [|c rest]; simpl; [discriminate|].
  destruct (Ascii.eqb c sep); [discriminate|].
  destruct (JsString.split sep rest); discriminate.
Qed.

Lemma consider_spec best w :
  consider (best, vowelCount best) w =
  if decide (beats w best) then (w, vowelCount w)
  else (best, vowelCount best).
Proof.
  unfold consider, beats.
  destruct (Nat.ltb_spec (vowelCount best) (vowelCount w)) as [Hlt|Hge].
  - rewrite decide_True by (left; lia). reflexivity.
  - destruct (Nat.eqb_spec (vowelCount w) (vowelCount best)) as [Heq|Hne]; simpl.
    + destruct (Nat.ltb_spec (String.length best) (String.length w)).
      * rewrite decide_True by (right; lia). rewrite Heq. reflexivity.
      * rewrite decide_False by lia. reflexivity.
    + rewrite decide_False by lia. reflexivity.
Qed.

Lemma beats_trans a b c : beats a b -> beats b c -> beats a c.
Proof. unfold beats. lia. Qed.

Lemma not_beats_trans a b c : ~ beats a b -> beats c b -> ~ beats a c.
Proof. unfold beats. lia. Qed.

Lemma beats_irrefl a : ~ beats a a.
Proof. unfold beats. lia. Qed.

(** The loop from a candidate [best]: either no word beats [best] and it
    stays, or the result is the first word that no word beats. *)
Lemma fold_consider ws : forall best,
  exists r,
    fold_left consider ws (best, vowelCount best) = (r, vowelCount r)
    /\ ((r = best /\ forall w, In w ws -> ~ beats w best)
        \/ (exists before after,
              ws = (before ++ r :: after)%list
              /\ beats r best
              /\ (forall w, In w before -> beats r w)
              /\ (forall w, In w after -> ~ beats w r))).
Proof.
  induction ws as [|w ws IH]; intros best; cbn [fold_left].
  - exists best. split; [reflexivity|]. left. split; [reflexivity|]. tauto.
  - rewrite consider_spec. destruct (decide (beats w best)) as [Hb|Hb].
    + destruct (IH w) as (r & Hr & [[-> Hall] | (before & after & -> & Hrw & Hbef & Haft)]).
      * exists w. split; [exact Hr|]. right. exists [], ws. simpl.
        repeat split; try assumption. tauto.
      * exists r. split; [exact Hr|]. right. exists (w :: before), after.
        repeat split; try assumption.
        -- eapply beats_trans; eassumption.
        -- intros w' [<-|Hin]; auto.
    + destruct (IH best) as (r & Hr & [[-> Hall] | (before & after & -> & Hrb & Hbef & Haft)]).
      * exists best. split; [exact Hr|]. left. split; [reflexivity|].
        intros w' [<-|Hin]; auto.
      * exists r. split; [exact Hr|]. right. exists (w :: before), after.
        repeat split; try assumption.
        intros w' [Hw|Hin]; [subst w'|auto].
        destruct (decide (beats r w)) as [|Hn]; [assumption|].
        exfalso. apply Hb. unfold beats in *. lia.
Qed.

Lemma beats_empty w : w <> "" -> beats w "".
Proof.
  intros Hw. unfold beats. simpl.
  destruct w as [|c rest]; [congruence|]. simpl. lia.
Qed.

(** The result is the first of the words that no other word beats. *)
Lemma wordWithMostVowels_first_best title :
  exists before after,
    JsString.split " " title
      = (before ++ wordWithMostVowels title :: after)%list
    /\ (forall w, In w before -> beats (wordWithMostVowels title) w)
    /\ (forall w, In w after -> ~ beats w (wordWithMostVowels title)).
Proof.
  pose proof (split_not_nil " " title) as Hne.
  destruct (fold_consider (JsString.split " " title) "")
    as (r & Hr & Hcases).
  assert (Hres : wordWithMostVowels title = r).
  { unfold wordWithMostVowels. change 0 with (vowelCount "").
    rewrite Hr. reflexivity. }
  rewrite Hres. clear Hres Hr.
  destruct Hcases as [[-> Hall] | (before & after & Heq & _ & Hbef & Haft)].
  - destruct (JsString.split " " title) as [|w ws]; [congruence|].
    assert (Hw : w = "").
    { destruct (decide (w = "")) as [|Hn]; [assumption|].
      exfalso. apply (Hall w); [left; reflexivity|]. apply beats_empty. exact Hn. }
    subst w. exists [], ws. simpl. split; [reflexivity|]. split; [tauto|].
    intros w Hin. apply Hall. right. exact Hin.
  - exists before, after. auto.
Qed.

Lemma split_concat sep s :
  String.concat (String sep "") (JsString.split sep s) = s.
Proof.
  induction s as [|c rest IH]; [reflexivity|].
  cbn [JsString.split].
  destruct (Ascii.eqb_spec c sep) as [->|Hne].
  - pose proof (split_not_nil sep rest) as Hnil.
    destruct (JsString.split sep rest) as [|w ws]; [congruence|].
    cbn [String.concat] in *. simpl. rewrite IH. reflexivity.
  - pose proof (split_not_nil sep rest) as Hnil.
    destruct (JsString.split sep rest) as [|w ws]; [congruence|].
    destruct ws as [|w' ws]; cbn [String.concat] in *.
    + rewrite IH. reflexivity.
    + simpl. rewrite <- IH. reflexivity.
Qed.

Lemma split_no_sep sep s w :
  In w (JsString.split sep s) -> ~ JsString.occurs sep w.
Proof.
  revert w. induction s as [|c rest IH]; intros w; cbn [JsString.split].
  - intros [<-|[]]. simpl. tauto.
  - destruct (Ascii.eqb_spec c sep) as [->|Hne].
    + intros [<-|Hin]; [simpl; tauto|]. apply IH. exact Hin.
    + pose proof (split_not_nil sep rest) as Hnil.
      destruct (JsString.split sep rest) as [|w0 ws]; [congruence|].
      intros [<-|Hin].
      * simpl. intros [Hc|Ho]; [congruence|].
        apply (IH w0); [left; reflexivity|exact Ho].
      * apply IH. right. exact Hin.
Qed.

Lemma vowelCount_step c rest :
  vowelCount (String c rest) =
  (if bool_decide (c ∈ vowels) then 1 else 0) + vowelCount rest.
Proof.
  cbn [vowelCount].
  destruct (existsb (Ascii.eqb c) vowels) eqn:E.
  - rewrite bool_decide_eq_true_2; [reflexivity|].
    apply existsb_exists in E as (v & Hin & Hv).
    apply Ascii.eqb_eq in Hv. subst v. apply list_elem_of_In. exact Hin.
  - rewrite bool_decide_eq_false_2; [reflexivity|].
    intros Hin. apply list_elem_of_In in Hin.
    assert (existsb (Ascii.eqb c) vowels = true) as E'.
    { apply existsb_exists. exists c. split; [exact Hin|apply Ascii.eqb_refl]. }
    congruence.
Qed.

(** C2 (as amended): [wordWithMostVowels] cuts the title at every space
    character (and at nothing else: the pieces joined by a space give the
    title back, and no piece holds a space), counts in each piece the
    characters that are one of the lowercase letters a, e, i, o, u, y
    (uppercase vowels are not counted), and returns a piece with the
    highest count; among pieces with that count a strictly longer one
    wins, and among equals the first one seen; the empty title gives the
    empty string. *)
Theorem wordWithMostVowels_spec (title : string) :
  let words := JsString.split " " title in
  let r := wordWithMostVowels title in
  String.concat " " words = title
  /\ Forall (fun w => ~ JsString.occurs " " w) words
  /\ In r words
  /\ Forall (fun w => vowelCount w <= vowelCount r) words
  /\ Forall (fun w => vowelCount w = vowelCount r ->
                      String.length w <= String.length r) words
  /\ (exists before after,
        words = (before ++ r :: after)%list
        /\ Forall (fun w => vowelCount w < vowelCount r
                            \/ String.length w < String.length r) before)
  /\ (forall c rest, vowelCount (String c rest) =
         (if bool_decide (c ∈ vowels) then 1 else 0) + vowelCount rest)
  /\ vowelCount "" = 0
  /\ vowelCount "AEIOUY" = 0
  /\ wordWithMostVowels "" = "".
Proof.
  intros words r.
  destruct (wordWithMostVowels_first_best title)
    as (before & after & Heq & Hbef & Haft).
  fold words r in Heq, Hbef, Haft.
  assert (Hall : forall w, In w words ->
            vowelCount w <= vowelCount r
            /\ (vowelCount w = vowelCount r ->
                String.length w <= String.length r)).
  { intros w Hin. rewrite Heq in Hin. apply in_app_or in Hin.
    destruct Hin as [Hin|[<-|Hin]].
    - specialize (Hbef w Hin). unfold beats in Hbef. lia.
    - lia.
    - specialize (Haft w Hin). unfold beats in Haft. lia. }
  split; [apply split_concat|].
  split; [apply List.Forall_forall; intros w Hin; eapply split_no_sep; exact Hin|].
  split; [rewrite Heq; apply in_or_app; right; left; reflexivity|].
  split; [apply List.Forall_forall; intros w Hin; apply Hall; exact Hin|].
  split; [apply List.Forall_forall; intros w Hin; apply Hall; exact Hin|].
  split.
  { exists before, after. split; [exact Heq|].
    apply List.Forall_forall. intros w Hin. specialize (Hbef w Hin).
    unfold beats in Hbef. lia. }
  split; [apply vowelCount_step|].
  repeat split.
Qed.

(** C2 (as stated) fails: on a title with a tab between two words the
    function does not return what a split on whitespace would give. *)
Lemma wordWithMostVowels_not_on_whitespace :
  wordWithMostVowels tab_title = tab_title
  /\ wordWithMostVowels_on_whitespace tab_title = "a"
  /\ wordWithMostVowels tab_title <> wordWithMostVowels_on_whitespace tab_title.
Proof. repeat split. discriminate. Qed.

(** C9: there is a non-empty title none of whose words has a vowel and
    for which the result is a non-empty word; and whenever no word of the
    title has a vowel, the result is a word of the title at least as long
    as every other, the first such. *)
Theorem wordWithMostVowels_no_vowels :
  (exists title,
      title <> ""
      /\ Forall (fun w => vowelCount w = 0) (JsString.split " " title)
      /\ wordWithMostVowels title = "Brrr")
  /\ (forall title,
        Forall (fun w => vowelCount w = 0) (JsString.split " " title) ->
        exists before after,
          JsString.split " " title
            = (before ++ wordWithMostVowels title :: after)%list
          /\ Forall (fun w => String.length w
                              < String.length (wordWithMostVowels title)) before
          /\ Forall (fun w => String.length w
                              <= String.length (wordWithMostVowels title)) after).
Proof.
  split.
  - exists "Hmm Brrr Psst". split; [discriminate|]. split; [|reflexivity].
    repeat constructor.
  - intros title Hzero.
    destruct (wordWithMostVowels_first_best title)
      as (before & after & Heq & Hbef & Haft).
    exists before, after. split; [exact Heq|].
    rewrite List.Forall_forall in Hzero.
    assert (Hr : vowelCount (wordWithMostVowels title) = 0).
    { apply Hzero. rewrite Heq. apply in_or_app. right. left. reflexivity. }
    split; apply List.Forall_forall; intros w Hin.
    + specialize (Hbef w Hin). unfold beats in Hbef.
      assert (vowelCount w = 0).
      { apply Hzero. rewrite Heq. apply in_or_app. left. exact Hin. }
      lia.
    + specialize (Haft w Hin). unfold beats in Haft.
      assert (vowelCount w = 0).
      { apply Hzero. rewrite Heq. apply in_or_app. right. right. exact Hin. }
      lia.
Qed.

(** ** [isValidUrl] *)

Lemma includes_In arr x : JsString.includes arr x = true <-> In x arr.
Proof.
  unfold JsString.includes. rewrite existsb_exists. split.
  - intros (y & Hin & Heq). apply String.eqb_eq in Heq. subst y. exact Hin.
  - intros Hin. exists x. split; [exact Hin|apply String.eqb_refl].
Qed.

Lemma includes_not_In arr x : ~ In x arr -> JsString.includes arr x = false.
Proof.
  intros Hn. destruct (JsString.includes arr x) eqn:E; [|reflexivity].
  apply includes_In in E. contradiction.
Qed.

(** The value of [isValidUrl] in closed form. *)
Lemma isValidUrl_value U this v :
  isValidUrl U this v =
  Normal match v with
         | JsString s =>
             negb (String.eqb s "")
             && (JsString.startsWith "http://" s
                 || JsString.startsWith "https://" s)
             && U s
             && isSupportedFeed this s
         | _ => false
         end.
Proof.
  unfold isValidUrl, new_URL.
  destruct v as [| |b|n| |n|s| |]; try reflexivity;
    try (cbn [falsy typeof_string]; rewrite orb_true_r; reflexivity).
  cbn [falsy typeof_string negb]. rewrite orb_false_r.
  destruct (String.eqb s ""); [reflexivity|].
  destruct (JsString.startsWith "http://" s),
           (JsString.startsWith "https://" s), (U s); reflexivity.
Qed.

Lemma new_RssModule_feeds U u k :
  supportedRssFeeds (new_RssModule U u k) =
  ["https://www.lemonde.fr/rss/une.xml";
   "https://www.theguardian.com/world/europe-news/rss"].
Proof.
  unfold new_RssModule.
  destruct u as [u|], k as [k|]; cbn;
    repeat match goal with
           | |- context [if ?c then _ else _] => destruct c
           end; reflexivity.
Qed.

(** C7: on a module as the constructor builds it, [isValidUrl] returns
    true for each of the supported feeds (which the platform's URL parser
    accepts), and returns false for a value that is not a string, for the
    empty string, for a string that starts with neither http:// nor
    https://, for a string the URL parser refuses, and for a string that
    is not, character for character, one of the supported feeds. *)
Theorem isValidUrl_allow_list
    (U : string -> bool) (u k : option string) (feed : string)
    (Hfeed : In feed (supportedRssFeeds (new_RssModule U u k)))
    (Hparses : U feed = true) :
  let this := new_RssModule U u k in
  isValidUrl U this (JsString feed) = Normal true
  /\ (forall v, typeof_string v = false -> isValidUrl U this v = Normal false)
  /\ isValidUrl U this (JsString "") = Normal false
  /\ (forall s, JsString.startsWith "http://" s = false ->
                JsString.startsWith "https://" s = false ->
                isValidUrl U this (JsString s) = Normal false)
  /\ (forall s, U s = false -> isValidUrl U this (JsString s) = Normal false)
  /\ (forall s, ~ In s (supportedRssFeeds this) ->
                isValidUrl U this (JsString s) = Normal false).
Proof.
  intros this. subst this.
  repeat split.
  - rewrite isValidUrl_value. f_equal.
    assert (Hsup : isSupportedFeed (new_RssModule U u k) feed = true)
      by (apply includes_In; exact Hfeed).
    rewrite Hsup, Hparses.
    rewrite new_RssModule_feeds in Hfeed.
    destruct Hfeed as [<-|[<-|[]]]; reflexivity.
  - intros v Hv. rewrite isValidUrl_value.
    destruct v; try reflexivity. discriminate.
  - intros s H1 H2. rewrite isValidUrl_value, H1, H2.
    rewrite andb_false_r. reflexivity.
  - intros s Hs. rewrite isValidUrl_value, Hs.
    rewrite andb_false_r. reflexivity.
  - intros s Hs. rewrite isValidUrl_value.
    unfold isSupportedFeed. rewrite (includes_not_In _ _ Hs).
    rewrite andb_false_r. reflexivity.
Qed.

Lemma isValidUrl_allow_list_witness :
  isValidUrl (fun _ => true) (new_RssModule (fun _ => true) None None)
    (JsString "https://www.lemonde.fr/rss/une.xml") = Normal true.
Proof.
  apply (isValidUrl_allow_list (fun _ => true) None None
           "https://www.lemonde.fr/rss/une.xml").
  - simpl. left. reflexivity.
  - reflexivity.
Defined.

(** C10: [isValidUrl] completes normally with a boolean on every value:
    on a value that is not a string or is falsy the boolean is false, and
    a throw of the URL parser is caught and gives false. *)
Theorem isValidUrl_total (U : string -> bool) (this : RssModule) (v : JsValue) :
  (exists b, isValidUrl U this v = Normal b)
  /\ (falsy v || negb (typeof_string v) = true ->
      isValidUrl U this v = Normal false)
  /\ (forall s, v = JsString s -> new_URL U s <> Normal tt ->
                isValidUrl U this v = Normal false).
Proof.
  split; [rewrite isValidUrl_value; eexists; reflexivity|].
  split.
  - intros Hg. unfold isValidUrl. rewrite Hg. reflexivity.
  - intros s -> Hthrow. rewrite isValidUrl_value.
    unfold new_URL in Hthrow. destruct (U s); [congruence|].
    rewrite andb_false_r. reflexivity.
Qed.

(** ** The storage layer *)

Section Storage.

Variable U : string -> bool.
Variable parseURL : string -> Completion Feed.t.

Lemma runQuery_eq now s w :
  runQuery now s w =
  (fst (execute now s (db w)),
   {| db := snd (execute now s (db w));
      held := held w;
      log := log w ++ [Connect; Query s; Release] |}).
Proof.
  unfold runQuery, bind, try_finally, pool_connect, client_query,
    client_release.
  cbn [db held log]. destruct (execute now s (db w)) as [r d].
  cbn [db held log fst snd Nat.pred]. rewrite <- !app_assoc. reflexivity.
Qed.

(** [runQuery] gives its client back whatever the statement did. *)
Lemma runQuery_releases now s w : held (snd (runQuery now s w)) = held w.
Proof. rewrite runQuery_eq. reflexivity. Qed.

Lemma entry_values_Some this item k t d p l :
  entry_values this item = Some (k, t, d, p, l) ->
  Item.props item !! primaryKey this = Some k
  /\ Item.props item !! "title" = Some t
  /\ Item.props item !! "contentSnippet" = Some d
  /\ Item.props item !! "pubDate" = Some p
  /\ Item.props item !! "link" = Some l.
Proof.
  unfold entry_values.
  destruct (Item.props item !! primaryKey this),
           (Item.props item !! "title"),
           (Item.props item !! "contentSnippet"),
           (Item.props item !! "pubDate"),
           (Item.props item !! "link"); intros [=]; subst; auto.
Qed.

(** An entry that lacks one of the NOT NULL values: the INSERT is refused
    with 23502 and the loop body throws that error. *)
Lemma save_item_incomplete now this results item w :
  entry_values this item = None ->
  save_item now this results item w =
  (Throw (DatabaseError "23502"),
   {| db := skip_id (db w);
      held := held w;
      log := log w ++ [Query (insert_of now this results item)] |}).
Proof.
  intros Hv. unfold save_item, try_catch, bind, client_query, insert_of,
    entry_values in *.
  cbn [execute].
  destruct (Item.props item !! primaryKey this),
           (Item.props item !! "title"),
           (Item.props item !! "contentSnippet"),
           (Item.props item !! "pubDate"),
           (Item.props item !! "link"); try discriminate; reflexivity.
Qed.

(** A complete entry with a new external id: one row is appended. *)
Lemma save_item_fresh now this results item w k t d p l :
  entry_values this item = Some (k, t, d, p, l) ->
  has_externalId k (articles (db w)) = false ->
  save_item now this results item w =
  (Normal tt,
   {| db := {| articles := articles (db w) ++
                 [{| Articles.id := articles_id_seq (db w);
                     Articles.externalId := k;
                     Articles.importDate := now;
                     Articles.title := t;
                     Articles.description := d;
                     Articles.publicationDate := p;
                     Articles.link := l;
                     Articles.mainPicture :=
                       Some (nullish
                               (nullish_opt (image_url (Item.image item))
                                            (image_url (Feed.image results)))
                               "") |}];
               articles_id_seq := S (articles_id_seq (db w));
               imports := imports (db w);
               imports_id_seq := imports_id_seq (db w) |};
      held := held w;
      log := log w ++ [Query (insert_of now this results item)] |}).
Proof.
  intros Hv Hfresh. apply entry_values_Some in Hv as (Hk & Ht & Hd & Hp & Hl).
  unfold save_item, try_catch, bind, client_query, insert_of, ret.
  cbn [execute]. rewrite Hk, Ht, Hd, Hp, Hl, Hfresh. reflexivity.
Qed.

(** A complete entry whose external id is taken: the INSERT is refused
    with 23505 and the UPDATE rewrites the rows with that id. *)
Lemma save_item_conflict now this results item w k t d p l :
  entry_values this item = Some (k, t, d, p, l) ->
  has_externalId k (articles (db w)) = true ->
  save_item now this results item w =
  (Normal tt,
   {| db := {| articles :=
                 map (update_row k t d p l
                        (Some (nullish (image_url (Item.image item)) "")))
                     (articles (db w));
               articles_id_seq := S (articles_id_seq (db w));
               imports := imports (db w);
               imports_id_seq := imports_id_seq (db w) |};
      held := held w;
      log := log w ++ [Query (insert_of now this results item);
                       Query (update_of this item)] |}).
Proof.
  intros Hv Htaken. apply entry_values_Some in Hv as (Hk & Ht & Hd & Hp & Hl).
  unfold save_item, try_catch, bind, client_query, insert_of, update_of,
    ret, throw.
  cbn [execute]. rewrite Hk, Ht, Hd, Hp, Hl, Htaken.
  cbn [code String.eqb Ascii.eqb Bool.eqb db held log execute articles
       articles_id_seq imports imports_id_seq].
  rewrite Htaken. rewrite <- app_assoc. reflexivity.
Qed.

(** *** External ids across the loop *)

Lemma has_externalId_In k rows :
  has_externalId k rows = true <-> In k (map Articles.externalId rows).
Proof.
  unfold has_externalId. rewrite existsb_exists, in_map_iff. split.
  - intros (r & Hin & Heq). apply String.eqb_eq in Heq. eauto.
  - intros (r & Heq & Hin). exists r. split; [exact Hin|].
    apply String.eqb_eq. exact Heq.
Qed.

Lemma has_externalId_not_In k rows :
  has_externalId k rows = false <-> ~ In k (map Articles.externalId rows).
Proof.
  rewrite <- has_externalId_In. destruct (has_externalId k rows); split;
    congruence.
Qed.

Lemma update_row_externalId k t d p l m r :
  Articles.externalId (update_row k t d p l m r) = Articles.externalId r.
Proof. unfold update_row. destruct (String.eqb _ _); reflexivity. Qed.

Lemma map_update_row_externalId k t d p l m rows :
  map Articles.externalId (map (update_row k t d p l m) rows) =
  map Articles.externalId rows.
Proof.
  rewrite map_map. apply map_ext. intros r. apply update_row_externalId.
Qed.

(** What one turn of the loop does to the stored external ids: a
    complete entry with a new id adds that id, every other entry leaves
    them as they were. *)
Lemma save_item_externalIds now this results item w :
  externalIds (snd (save_item now this results item w)) =
  (externalIds w ++
   match entry_values this item with
   | Some (k, _, _, _, _) =>
       if has_externalId k (articles (db w)) then [] else [k]
   | None => []
   end)%list.
Proof.
  destruct (entry_values this item) as [[[[[k t] d] p] l]|] eqn:Hv.
  - destruct (has_externalId k (articles (db w))) eqn:Hk.
    + rewrite (save_item_conflict _ _ _ _ _ _ _ _ _ _ Hv Hk).
      unfold externalIds. cbn [snd db articles].
      rewrite map_update_row_externalId, app_nil_r. reflexivity.
    + rewrite (save_item_fresh _ _ _ _ _ _ _ _ _ _ Hv Hk).
      unfold externalIds. cbn [snd db articles].
      rewrite map_app. reflexivity.
  - rewrite (save_item_incomplete _ _ _ _ _ Hv).
    unfold externalIds. cbn [snd db articles skip_id].
    rewrite app_nil_r. reflexivity.
Qed.

(** An entry whose external id is stored adds no row, whatever else it
    carries. *)
Lemma save_item_taken now this results item w k :
  Item.props item !! primaryKey this = Some k ->
  In k (externalIds w) ->
  externalIds (snd (save_item now this results item w)) = externalIds w.
Proof.
  intros Hkey Htaken. rewrite save_item_externalIds.
  destruct (entry_values this item) as [[[[[k' t] d] p] l]|] eqn:Hv;
    [|apply app_nil_r].
  apply entry_values_Some in Hv as (Hk' & _).
  assert (k' = k) by congruence. subst k'.
  apply has_externalId_In in Htaken. rewrite Htaken. apply app_nil_r.
Qed.

(** A turn that completes normally leaves the entry's id stored. *)
Lemma save_item_Normal now this results item w :
  fst (save_item now this results item w) = Normal tt ->
  exists k t d p l,
    entry_values this item = Some (k, t, d, p, l)
    /\ In k (externalIds (snd (save_item now this results item w))).
Proof.
  intros Hn.
  destruct (entry_values this item) as [[[[[k t] d] p] l]|] eqn:Hv.
  - exists k, t, d, p, l. split; [reflexivity|].
    rewrite save_item_externalIds, Hv.
    destruct (has_externalId k (articles (db w))) eqn:Hk.
    + rewrite app_nil_r. apply has_externalId_In. exact Hk.
    + apply in_or_app. right. left. reflexivity.
  - rewrite (save_item_incomplete _ _ _ _ _ Hv) in Hn. discriminate.
Qed.

Lemma save_item_complete_Normal now this results item w v :
  entry_values this item = Some v ->
  fst (save_item now this results item w) = Normal tt.
Proof.
  destruct v as [[[[k t] d] p] l]. intros Hv.
  destruct (has_externalId k (articles (db w))) eqn:Hk.
  - rewrite (save_item_conflict _ _ _ _ _ _ _ _ _ _ Hv Hk). reflexivity.
  - rewrite (save_item_fresh _ _ _ _ _ _ _ _ _ _ Hv Hk). reflexivity.
Qed.

Lemma save_items_cons now this results item rest w :
  save_items now this results (item :: rest) w =
  match save_item now this results item w with
  | (Normal _, w1) => save_items now this results rest w1
  | (Throw e, w1) => (Throw e, w1)
  end.
Proof. reflexivity. Qed.

(** The loop never removes an external id. *)
Lemma save_items_keeps now this results items : forall w k,
  In k (externalIds w) ->
  In k (externalIds (snd (save_items now this results items w))).
Proof.
  induction items as [|item rest IH]; intros w k Hin; [exact Hin|].
  rewrite save_items_cons.
  pose proof (save_item_externalIds now this results item w) as Hids.
  destruct (save_item now this results item w) as [[[]|e] w1];
    cbn [snd] in Hids.
  - apply IH. rewrite Hids. apply in_or_app. left. exact Hin.
  - cbn [snd]. rewrite Hids. apply in_or_app. left. exact Hin.
Qed.

(** The loop keeps the external ids pairwise distinct. *)
Lemma save_items_NoDup now this results items : forall w,
  NoDup (externalIds w) ->
  NoDup (externalIds (snd (save_items now this results items w))).
Proof.
  induction items as [|item rest IH]; intros w Hnd; [exact Hnd|].
  rewrite save_items_cons.
  pose proof (save_item_externalIds now this results item w) as Hids.
  assert (Hnd1 : NoDup (externalIds (snd (save_item now this results item w)))).
  { rewrite Hids.
    destruct (entry_values this item) as [[[[[k t] d] p] l]|];
      [|rewrite app_nil_r; exact Hnd].
    destruct (has_externalId k (articles (db w))) eqn:Hk;
      [rewrite app_nil_r; exact Hnd|].
    apply has_externalId_not_In in Hk.
    apply NoDup_app. split; [exact Hnd|]. split.
    - intros x Hx Hx'. apply list_elem_of_In in Hx, Hx'.
      destruct Hx' as [<-|[]]. apply Hk. exact Hx.
    - apply NoDup_singleton. }
  destruct (save_item now this results item w) as [[[]|e] w1];
    cbn [snd] in *.
  - apply IH. exact Hnd1.
  - exact Hnd1.
Qed.

(** Running the loop over the same entries again, from any world that
    holds every external id the first run left, stores no new id. *)
Lemma save_items_again now1 now2 this results items : forall w w',
  (forall k, In k (externalIds (snd (save_items now1 this results items w))) ->
             In k (externalIds w')) ->
  externalIds (snd (save_items now2 this results items w')) = externalIds w'.
Proof.
  induction items as [|item rest IH]; intros w w' Hsub; [reflexivity|].
  rewrite save_items_cons in Hsub. rewrite save_items_cons.
  pose proof (save_item_externalIds now2 this results item w') as Hids'.
  destruct (entry_values this item) as [v|] eqn:Hv.
  - pose proof (save_item_complete_Normal now1 this results item w v Hv) as H1.
    pose proof (save_item_complete_Normal now2 this results item w' v Hv) as H2.
    pose proof (save_item_Normal now1 this results item w H1)
      as (k & t & d & p & l & Hv' & Hin).
    rewrite Hv in Hv'. injection Hv' as ->.
    destruct (save_item now1 this results item w) as [[[]|e] w1];
      cbn [fst snd] in *; [|discriminate].
    assert (Hk : has_externalId k (articles (db w')) = true).
    { apply has_externalId_In. apply Hsub.
      apply save_items_keeps. exact Hin. }
    rewrite Hk, app_nil_r in Hids'.
    destruct (save_item now2 this results item w') as [[[]|e] w1'];
      cbn [fst snd] in *; [|discriminate].
    rewrite <- Hids'. apply (IH w1 w1'). intros k' Hk'.
    rewrite Hids'. apply Hsub. exact Hk'.
  - rewrite (save_item_incomplete _ _ _ _ _ Hv).
    unfold externalIds. reflexivity.
Qed.

(** *** [saveImportRequest] and [import] unfolded *)

Lemma saveImportRequest_eq now this results w :
  saveImportRequest now this results w =
  match Feed.items results with
  | None => (Throw no_items_error, after_ledger now results w)
  | Some items =>
      match save_items now this results items (loop_start now results w) with
      | (Normal _, w3) => (Normal results, snd (client_release w3))
      | (Throw e, w3) => (Throw e, w3)
      end
  end.
Proof.
  unfold saveImportRequest, loop_start, after_ledger, bind.
  rewrite runQuery_eq. cbn [execute fst snd].
  destruct (Feed.items results) as [items|]; [|reflexivity].
  cbn [pool_connect snd].
  match goal with
  | |- context [save_items _ _ _ _ ?w0] =>
      destruct (save_items now this results items w0) as [[[]|e] w3]
  end; reflexivity.
Qed.

Lemma after_ledger_eq now results w :
  after_ledger now results w =
  {| db := {| articles := articles (db w);
              articles_id_seq := articles_id_seq (db w);
              imports := imports (db w) ++
                [{| Imports.id := imports_id_seq (db w);
                    Imports.importDate := now;
                    Imports.rawContent := results |}];
              imports_id_seq := S (imports_id_seq (db w)) |};
     held := held w;
     log := log w ++ [Connect; Query (InsertImport results); Release] |}.
Proof. unfold after_ledger. rewrite runQuery_eq. reflexivity. Qed.

Lemma loop_start_eq now results w :
  loop_start now results w =
  {| db := db (after_ledger now results w);
     held := S (held w);
     log := log w ++ [Connect; Query (InsertImport results); Release; Connect] |}.
Proof.
  unfold loop_start. rewrite after_ledger_eq. cbn [pool_connect snd db held log].
  rewrite <- app_assoc. reflexivity.
Qed.

Lemma import_save_eq now this u results w :
  isValidUrl U this (JsString (resolve this u)) = Normal true ->
  parseURL (resolve this u) = Normal results ->
  import U parseURL now this u true w =
  (Normal results, snd (saveImportRequest now this results w)).
Proof.
  intros Hvalid Hfetch. unfold import. cbv zeta.
  rewrite Hvalid, Hfetch. cbn [negb].
  unfold try_finally_return, try_catch, bind, ret.
  destruct (saveImportRequest now this results w) as [[r|e] w1]; reflexivity.
Qed.

(** An [import] that does not reach the save leaves the world alone. *)
Lemma import_no_save now this u w :
  (isValidUrl U this (JsString (resolve this u)) <> Normal true
   \/ exists e, parseURL (resolve this u) = Throw e) ->
  snd (import U parseURL now this u true w) = w.
Proof.
  intros H. unfold import. cbv zeta.
  destruct (isValidUrl U this (JsString (resolve this u))) as [[]|e];
    try reflexivity.
  destruct H as [H|[e He]]; [congruence|]. rewrite He. reflexivity.
Qed.

Lemma externalIds_saveImportRequest now this results w :
  externalIds (snd (saveImportRequest now this results w)) =
  match Feed.items results with
  | None => externalIds w
  | Some items =>
      externalIds (snd (save_items now this results items
                          (loop_start now results w)))
  end.
Proof.
  rewrite saveImportRequest_eq.
  destruct (Feed.items results) as [items|].
  - destruct (save_items now this results items (loop_start now results w))
      as [[[]|e] w3]; reflexivity.
  - rewrite after_ledger_eq. reflexivity.
Qed.

Lemma externalIds_loop_start now results w :
  externalIds (loop_start now results w) = externalIds w.
Proof. rewrite loop_start_eq, after_ledger_eq. reflexivity. Qed.

(** Saving the same document twice in a row. *)
Lemma saveImportRequest_again now1 now2 this results w :
  let w1 := snd (saveImportRequest now1 this results w) in
  let w2 := snd (saveImportRequest now2 this results w1) in
  externalIds w2 = externalIds w1
  /\ (NoDup (externalIds w) -> NoDup (externalIds w1)).
Proof.
  intros w1 w2. subst w1 w2. split.
  - rewrite (externalIds_saveImportRequest now2).
    destruct (Feed.items results) as [items|] eqn:Hitems; [|reflexivity].
    rewrite (save_items_again now1 now2 this results items
               (loop_start now1 results w)).
    + apply externalIds_loop_start.
    + intros k Hk. rewrite externalIds_loop_start.
      rewrite externalIds_saveImportRequest, Hitems. exact Hk.
  - intros Hnd. rewrite externalIds_saveImportRequest.
    destruct (Feed.items results) as [items|]; [|exact Hnd].
    apply save_items_NoDup. rewrite externalIds_loop_start. exact Hnd.
Qed.

(** C1: importing the same feed twice in a row, with the document at the
    URL unchanged, adds no article row: the table has as many rows, and
    the same external ids, after the second import as after the first;
    and if the external ids were pairwise distinct before the first
    import they are so after each import (an INSERT that meets a taken
    id is followed by an UPDATE and adds no row). *)
Theorem import_twice_no_new_rows
    (now1 now2 : Date) (this : RssModule) (u : option string) (w : World)
    (Hunique : NoDup (externalIds w)) :
  let w1 := snd (import U parseURL now1 this u true w) in
  let w2 := snd (import U parseURL now2 this u true w1) in
  List.length (articles (db w2)) = List.length (articles (db w1))
  /\ externalIds w2 = externalIds w1
  /\ NoDup (externalIds w1)
  /\ NoDup (externalIds w2)
  /\ (forall now results item k w',
        Item.props item !! primaryKey this = Some k ->
        In k (externalIds w') ->
        externalIds (snd (save_item now this results item w'))
          = externalIds w').
Proof.
  intros w1 w2.
  assert (H : externalIds w2 = externalIds w1 /\ NoDup (externalIds w1)).
  { subst w1 w2.
    destruct (isValidUrl U this (JsString (resolve this u)))
      as [[]|e] eqn:Hvalid.
    - destruct (parseURL (resolve this u)) as [results|e] eqn:Hfetch.
      + rewrite !(import_save_eq _ _ _ results) by assumption. cbn [snd].
        destruct (saveImportRequest_again now1 now2 this results w) as [H1 H2].
        split; [exact H1|apply H2; exact Hunique].
      + rewrite !import_no_save by (right; eauto). auto.
    - rewrite !import_no_save by (left; congruence). auto.
    - rewrite !import_no_save by (left; congruence). auto. }
  destruct H as [Hids Hnd].
  split; [|split; [exact Hids|split; [exact Hnd|split]]].
  - unfold externalIds in Hids.
    rewrite <- (length_map Articles.externalId (articles (db w2))), Hids.
    apply length_map.
  - rewrite Hids. exact Hnd.
  - intros now results item k w' Hkey Htaken.
    apply save_item_taken with (k := k); assumption.
Qed.

(** *** What the loop leaves alone *)

Lemma save_item_frame now this results item w :
  let w' := snd (save_item now this results item w) in
  held w' = held w
  /\ imports (db w') = imports (db w)
  /\ exists evs, log w' = (log w ++ evs)%list
                 /\ Forall (fun e => is_article_write e = true) evs.
Proof.
  destruct (entry_values this item) as [[[[[k t] d] p] l]|] eqn:Hv.
  - destruct (has_externalId k (articles (db w))) eqn:Hk.
    + rewrite (save_item_conflict _ _ _ _ _ _ _ _ _ _ Hv Hk). cbn.
      repeat split. eexists. split; [reflexivity|]. repeat constructor.
    + rewrite (save_item_fresh _ _ _ _ _ _ _ _ _ _ Hv Hk). cbn.
      repeat split. eexists. split; [reflexivity|]. repeat constructor.
  - rewrite (save_item_incomplete _ _ _ _ _ Hv). cbn.
    repeat split. eexists. split; [reflexivity|]. repeat constructor.
Qed.

Lemma save_items_frame now this results items : forall w,
  let w' := snd (save_items now this results items w) in
  held w' = held w
  /\ imports (db w') = imports (db w)
  /\ exists evs, log w' = (log w ++ evs)%list
                 /\ Forall (fun e => is_article_write e = true) evs.
Proof.
  induction items as [|item rest IH]; intros w; cbv zeta.
  - cbn. repeat split. exists []. rewrite app_nil_r. split; constructor.
  - rewrite save_items_cons.
    destruct (save_item_frame now this results item w)
      as (Hh & Hi & evs & Hl & Hevs).
    destruct (save_item now this results item w) as [[[]|e] w1];
      cbn [snd] in *.
    + destruct (IH w1) as (Hh' & Hi' & evs' & Hl' & Hevs').
      split; [congruence|]. split; [congruence|].
      exists (evs ++ evs')%list. split.
      * rewrite Hl', Hl, app_assoc. reflexivity.
      * apply Forall_app. split; assumption.
    + split; [exact Hh|]. split; [exact Hi|]. exists evs. auto.
Qed.

(** C5: an [import] that reaches the save (valid URL, document fetched,
    [save] true) appends exactly one row to [imports], holding the whole
    parsed document; the INSERT of that row is the first statement of the
    call and everything the call does afterwards is a connect, a release
    or a statement on [articles]; when the document has no [items] the
    save throws the "no items" error from the world in which the row is
    already written. *)
Theorem ledger_written_before_entries
    (now : Date) (this : RssModule) (u : option string) (results : Feed.t)
    (w : World)
    (Hvalid : isValidUrl U this (JsString (resolve this u)) = Normal true)
    (Hfetch : parseURL (resolve this u) = Normal results) :
  let w' := snd (import U parseURL now this u true w) in
  let record := {| Imports.id := imports_id_seq (db w);
                   Imports.importDate := now;
                   Imports.rawContent := results |} in
  imports (db w') = (imports (db w) ++ [record])%list
  /\ (exists tail,
        log w' = (log w ++ [Connect; Query (InsertImport results); Release]
                        ++ tail)%list
        /\ Forall (fun e => is_ledger_write e = false) tail
        /\ (tail = []
            \/ exists evs,
                 Forall (fun e => is_article_write e = true) evs
                 /\ (tail = Connect :: evs
                     \/ tail = (Connect :: evs ++ [Release])%list)))
  /\ (Feed.items results = None ->
      saveImportRequest now this results w
        = (Throw no_items_error, after_ledger now results w)
      /\ imports (db (after_ledger now results w))
           = (imports (db w) ++ [record])%list
      /\ articles (db (after_ledger now results w)) = articles (db w)).
Proof.
  intros w' record. subst w'.
  rewrite (import_save_eq _ _ _ results) by assumption. cbn [snd].
  rewrite saveImportRequest_eq.
  assert (Hwrite : forall e, is_article_write e = true ->
                             is_ledger_write e = false).
  { intros [|[]|]; cbn; congruence. }
  destruct (Feed.items results) as [items|] eqn:Hitems.
  - destruct (save_items_frame now this results items
                (loop_start now results w)) as (_ & Hi & evs & Hl & Hevs).
    assert (Hi0 : imports (db (loop_start now results w))
                  = (imports (db w) ++ [record])%list)
      by (rewrite loop_start_eq, after_ledger_eq; reflexivity).
    assert (Hl0 : log (loop_start now results w)
                  = (log w ++ [Connect; Query (InsertImport results);
                               Release; Connect])%list)
      by (rewrite loop_start_eq; reflexivity).
    rewrite Hi0 in Hi. rewrite Hl0 in Hl. clear Hi0 Hl0.
    assert (Hevs' : Forall (fun e => is_ledger_write e = false) evs).
    { eapply List.Forall_impl; [exact Hwrite|exact Hevs]. }
    destruct (save_items now this results items (loop_start now results w))
      as [[[]|e] w3]; cbn [snd client_release db log] in *.
    + split; [exact Hi|]. split; [|discriminate].
      exists (Connect :: evs ++ [Release])%list. split.
      { rewrite Hl. rewrite <- !app_assoc. reflexivity. }
      split.
      { constructor; [reflexivity|]. apply Forall_app. split; [exact Hevs'|].
        repeat constructor. }
      right. exists evs. auto.
    + split; [exact Hi|]. split; [|discriminate].
      exists (Connect :: evs). split.
      { rewrite Hl. rewrite <- !app_assoc. reflexivity. }
      split; [constructor; [reflexivity|exact Hevs']|].
      right. exists evs. auto.
  - rewrite after_ledger_eq. cbn [snd db imports articles log].
    split; [reflexivity|]. split.
    + exists []. rewrite !app_nil_r. repeat split; auto.
    + intros _. repeat split.
Qed.

(** *** The update path *)

Lemma Forall2_map_same {A} (R : A -> A -> Prop) (f : A -> A) rows :
  (forall r, R r (f r)) -> Forall2 R rows (map f rows).
Proof. intros HR. induction rows; constructor; auto. Qed.

Lemma Forall2_same {A} (R : A -> A -> Prop) rows :
  (forall r, R r r) -> Forall2 R rows rows.
Proof. intros HR. induction rows; constructor; auto. Qed.

(** C6: when the entry's external id is already stored, the turn of the
    loop for that entry leaves the table with the same rows in the same
    places, each with its [id], [externalId] and [importDate] as before;
    a row with another external id is not changed at all; and when the
    turn completes, the rows with that id carry the entry's title,
    description, publication date, link and main picture. *)
Theorem update_path_frame
    (now : Date) (this : RssModule) (results : Feed.t) (item : Item.t)
    (w : World) (k : string)
    (Hkey : Item.props item !! primaryKey this = Some k)
    (Htaken : In k (externalIds w)) :
  let w' := snd (save_item now this results item w) in
  Forall2 (fun r r' =>
             Articles.id r' = Articles.id r
             /\ Articles.externalId r' = Articles.externalId r
             /\ Articles.importDate r' = Articles.importDate r
             /\ (Articles.externalId r <> k -> r' = r))
          (articles (db w)) (articles (db w'))
  /\ (fst (save_item now this results item w) = Normal tt ->
      Forall (fun r' =>
                Articles.externalId r' = k ->
                Item.props item !! "title" = Some (Articles.title r')
                /\ Item.props item !! "contentSnippet"
                     = Some (Articles.description r')
                /\ Item.props item !! "pubDate"
                     = Some (Articles.publicationDate r')
                /\ Item.props item !! "link" = Some (Articles.link r')
                /\ Articles.mainPicture r'
                     = Some (nullish (image_url (Item.image item)) ""))
             (articles (db w'))).
Proof.
  intros w'. subst w'.
  destruct (entry_values this item) as [[[[[k' t] d] p] l]|] eqn:Hv.
  - destruct (entry_values_Some _ _ _ _ _ _ _ Hv) as (Hk' & Ht & Hd & Hp & Hl).
    assert (k' = k) by congruence. subst k'.
    assert (Hhas : has_externalId k (articles (db w)) = true)
      by (apply has_externalId_In; exact Htaken).
    rewrite (save_item_conflict _ _ _ _ _ _ _ _ _ _ Hv Hhas).
    cbn [fst snd db articles]. split.
    + apply Forall2_map_same. intros r. unfold update_row.
      destruct (String.eqb_spec (Articles.externalId r) k); cbn; auto.
      repeat split. congruence.
    + intros _. apply List.Forall_forall. intros r' Hin Hr'.
      apply in_map_iff in Hin as (r & <- & _).
      rewrite update_row_externalId in Hr'.
      unfold update_row. apply String.eqb_eq in Hr'. rewrite Hr'. cbn. auto.
  - rewrite (save_item_incomplete _ _ _ _ _ Hv). cbn [fst snd db skip_id articles].
    split; [|discriminate]. apply Forall2_same. auto.
Qed.

(** *** Failures of the save *)

Lemma save_item_throw now this results item w e w' :
  client_query now (insert_of now this results item) w = (Throw e, w') ->
  code e <> Some "23505" ->
  save_item now this results item w = (Throw e, w').
Proof.
  intros Hq Hcode. unfold save_item, try_catch, bind. rewrite Hq.
  destruct (code e) as [c|]; [|reflexivity].
  destruct (String.eqb_spec c "23505"); [congruence|reflexivity].
Qed.

Lemma save_items_app_throw now this results pre item rest e : forall w w1 w2,
  save_items now this results pre w = (Normal tt, w1) ->
  save_item now this results item w1 = (Throw e, w2) ->
  save_items now this results (pre ++ item :: rest) w = (Throw e, w2).
Proof.
  induction pre as [|x pre IH]; intros w w1 w2 Hpre Hitem.
  - cbn in Hpre. injection Hpre as ->. cbn [app].
    rewrite save_items_cons, Hitem. reflexivity.
  - cbn [app]. rewrite save_items_cons in *.
    destruct (save_item now this results x w) as [[[]|e'] wx];
      [|discriminate].
    eapply IH; eassumption.
Qed.

Lemma refused_insert_articles now s w e w' :
  client_query now s w = (Throw e, w') ->
  articles (db w') = articles (db w).
Proof.
  unfold client_query. destruct s as [|raw|k date t d p l m|t d p l m k];
    cbn [execute].
  - intros [=].
  - intros [=].
  - destruct k, t, d, p, l; try (intros [= <- <-]; reflexivity).
    destruct (has_externalId _ _); intros [=]; subst; reflexivity.
  - destruct k as [k|]; [|intros [=]].
    destruct (has_externalId _ _); [|intros [=]].
    destruct t, d, p, l; intros [=]; subst; reflexivity.
Qed.

(** C4 (as amended): when, after the entries [pre] were saved, the INSERT
    for the next entry is refused with an error other than the unique
    violation, [saveImportRequest] throws that error at once: the table
    is as the entries [pre] left it, whatever entries follow, and the
    client is not released.  [import] all the same completes normally
    with the fetched document. *)
Theorem save_failure_aborts_batch
    (now : Date) (this : RssModule) (u : option string) (results : Feed.t)
    (pre : list Item.t) (item : Item.t) (rest : list Item.t)
    (w w1 w2 : World) (e : Error)
    (Hvalid : isValidUrl U this (JsString (resolve this u)) = Normal true)
    (Hfetch : parseURL (resolve this u) = Normal results)
    (Hitems : Feed.items results = Some (pre ++ item :: rest)%list)
    (Hpre : save_items now this results pre (loop_start now results w)
            = (Normal tt, w1))
    (Hfail : client_query now (insert_of now this results item) w1
             = (Throw e, w2))
    (Hcode : code e <> Some "23505") :
  saveImportRequest now this results w = (Throw e, w2)
  /\ articles (db w2) = articles (db w1)
  /\ import U parseURL now this u true w = (Normal results, w2).
Proof.
  assert (Hsave : saveImportRequest now this results w = (Throw e, w2)).
  { rewrite saveImportRequest_eq, Hitems.
    rewrite (save_items_app_throw _ _ _ _ _ _ _ _ _ _ Hpre
               (save_item_throw _ _ _ _ _ _ _ Hfail Hcode)).
    reflexivity. }
  split; [exact Hsave|]. split.
  - eapply refused_insert_articles. exact Hfail.
  - rewrite (import_save_eq _ _ _ results) by assumption.
    rewrite Hsave. reflexivity.
Qed.

(** [get] gives its client back and attaches to each stored row the word
    computed from its title. *)
Lemma get_eq now w :
  get now w =
  (Normal (map (fun r => {| row := r;
                            wordwithmostvowels :=
                              wordWithMostVowels (Articles.title r) |})
               (articles (db w))),
   {| db := db w;
      held := held w;
      log := log w ++ [Connect; Query SelectArticles; Release] |}).
Proof. unfold get, bind. rewrite runQuery_eq. reflexivity. Qed.

(** The clients held after [saveImportRequest]: one more than before
    exactly when the loop threw. *)
Lemma saveImportRequest_held now this results w :
  held (snd (saveImportRequest now this results w)) =
  match Feed.items results with
  | None => held w
  | Some items =>
      match fst (save_items now this results items
                   (loop_start now results w)) with
      | Normal _ => held w
      | Throw _ => S (held w)
      end
  end.
Proof.
  rewrite saveImportRequest_eq.
  destruct (Feed.items results) as [items|].
  - destruct (save_items_frame now this results items
                (loop_start now results w)) as (Hh & _).
    assert (Hh0 : held (loop_start now results w) = S (held w))
      by (rewrite loop_start_eq; reflexivity).
    rewrite Hh0 in Hh. clear Hh0.
    destruct (save_items now this results items (loop_start now results w))
      as [[[]|e] w3]; cbn [fst snd client_release held] in *.
    + rewrite Hh. reflexivity.
    + exact Hh.
  - rewrite after_ledger_eq. reflexivity.
Qed.

End Storage.

(** ** The theorems at sample inputs *)

Lemma import_twice_no_new_rows_witness :
  NoDup (externalIds stocked_world)
  /\ let w1 := snd (import lenient (serving sample_feed) 100 module0
                      (Some lemonde) true stocked_world) in
     let w2 := snd (import lenient (serving sample_feed) 200 module0
                      (Some lemonde) true w1) in
     List.length (articles (db w2)) = List.length (articles (db w1))
     /\ externalIds w2 = externalIds w1
     /\ NoDup (externalIds w1)
     /\ NoDup (externalIds w2).
Proof.
  assert (H : NoDup (externalIds stocked_world)).
  { apply (bool_decide_unpack _). vm_compute. exact I. }
  split; [exact H|].
  destruct (import_twice_no_new_rows lenient (serving sample_feed) 100 200
              module0 (Some lemonde) stocked_world H)
    as (Hlen & Hids & Hnd1 & Hnd2 & _).
  auto.
Defined.

Lemma ledger_written_before_entries_witness :
  imports (db (snd (import lenient (serving sample_feed) 100 module0
                      (Some lemonde) true empty_world)))
  = [{| Imports.id := 1;
        Imports.importDate := 100;
        Imports.rawContent := sample_feed |}].
Proof.
  exact (proj1 (ledger_written_before_entries lenient (serving sample_feed)
                  100 module0 (Some lemonde) sample_feed empty_world
                  eq_refl eq_refl)).
Defined.

Lemma update_path_frame_witness :
  Forall2 (fun r r' =>
             Articles.id r' = Articles.id r
             /\ Articles.externalId r' = Articles.externalId r
             /\ Articles.importDate r' = Articles.importDate r
             /\ (Articles.externalId r <> "g1" -> r' = r))
          (articles (db stocked_world))
          (articles (db (snd (save_item 100 module0 sample_feed
                                (entry "g1" (Some "First") None)
                                stocked_world)))).
Proof.
  apply (update_path_frame 100 module0 sample_feed
           (entry "g1" (Some "First") None) stocked_world "g1").
  - vm_compute. reflexivity.
  - cbn. left. reflexivity.
Defined.

Lemma save_failure_aborts_batch_witness :
  let start := loop_start 100 untitled_feed empty_world in
  let w1 := snd (save_items 100 module0 untitled_feed
                   [entry "g1" (Some "First") None] start) in
  let w2 := snd (client_query 100
                   (insert_of 100 module0 untitled_feed (entry "g2" None None))
                   w1) in
  saveImportRequest 100 module0 untitled_feed empty_world
    = (Throw (DatabaseError "23502"), w2)
  /\ articles (db w2) = articles (db w1)
  /\ import lenient (serving untitled_feed) 100 module0 (Some lemonde) true
       empty_world
     = (Normal untitled_feed, w2).
Proof.
  intros start w1 w2.
  apply (save_failure_aborts_batch lenient (serving untitled_feed) 100
           module0 (Some lemonde) untitled_feed
           [entry "g1" (Some "First") None] (entry "g2" None None)
           [entry "g3" (Some "Third") None] empty_world w1 w2
           (DatabaseError "23502")).
  - reflexivity.
  - reflexivity.
  - reflexivity.
  - vm_compute. reflexivity.
  - vm_compute. reflexivity.
  - cbn. discriminate.
Defined.

(** C4 (as stated) fails: on a feed whose second entry has no title the
    save throws the NOT NULL violation 23502 and [import] still completes
    normally with the document. *)
Lemma import_hides_save_failure :
  ~ import_surfaces_save_failure lenient (serving untitled_feed) 100 module0
      (Some lemonde) empty_world.
Proof.
  intros H.
  destruct (H untitled_feed "23502") as [e He].
  - reflexivity.
  - reflexivity.
  - vm_compute. reflexivity.
  - discriminate.
  - vm_compute in He. discriminate He.
Qed.

(** C3: on the update path the feed's picture is not consulted.  The
    first import of a feed that has a picture, with entries that have
    none, stores the feed's picture with each entry; importing the same
    document again replaces it by the empty string. *)
Theorem update_path_drops_feed_picture :
  let w1 := snd (import lenient (serving sample_feed) 100 module0
                   (Some lemonde) true empty_world) in
  let w2 := snd (import lenient (serving sample_feed) 200 module0
                   (Some lemonde) true w1) in
  map Articles.mainPicture (articles (db w1))
    = [Some feed_picture; Some feed_picture]
  /\ map Articles.mainPicture (articles (db w2)) = [Some ""; Some ""]
  /\ map Articles.externalId (articles (db w2)) = ["g1"; "g2"].
Proof. vm_compute. repeat split. Qed.

(** C8: when an INSERT of the loop is refused with an error other than
    the unique violation, [saveImportRequest] ends with its client still
    checked out: one connect of the call has no release after it.  The
    same refused statement sent through [runQuery] leaves no client
    held. *)
Theorem failed_save_keeps_client :
  let r := saveImportRequest 100 module0 untitled_feed empty_world in
  fst r = Throw (DatabaseError "23502")
  /\ held empty_world = 0
  /\ held (snd r) = 1
  /\ filter (fun e => negb (is_article_write e)) (log (snd r))
     = [Connect; Query (InsertImport untitled_feed); Release; Connect]
  /\ held (snd (runQuery 100
                  (insert_of 100 module0 untitled_feed (entry "g2" None None))
                  empty_world)) = 0.
Proof. vm_compute. repeat split. Qed.

(** ** Runs on the sample data *)

Example split_two_words : JsString.split " " "The Quick" = ["The"; "Quick"].
Proof. reflexivity. Qed.

Example split_double_space :
  JsString.split " " "a  b " = ["a"; ""; "b"; ""].
Proof. reflexivity. Qed.

Example wordWithMostVowels_fox :
  wordWithMostVowels "The Quick Brown Fox" = "Quick".
Proof. reflexivity. Qed.

Example wordWithMostVowels_tie_longer :
  wordWithMostVowels "to tooth sooth" = "tooth".
Proof. reflexivity. Qed.

Example wordWithMostVowels_uppercase :
  wordWithMostVowels "AEIOU bcd" = "AEIOU"
  /\ wordWithMostVowels "AEIOU be" = "be".
Proof. split; reflexivity. Qed.

Example isValidUrl_unsupported :
  isValidUrl lenient module0
    (JsString "https://www.theguardian.com/world/world-news/rss")
  = Normal false.
Proof. reflexivity. Qed.

Example import_unsupported_throws :
  import lenient (serving sample_feed) 100 module0
    (Some "not a valid URL") true empty_world
  = (Throw malformed_url_error, empty_world).
Proof. reflexivity. Qed.

Example import_preview_leaves_world :
  import lenient (serving sample_feed) 100 module0 (Some lemonde) false
    empty_world
  = (Normal sample_feed, empty_world).
Proof. reflexivity. Qed.

Example import_sample_rows :
  map (fun r => (Articles.id r, Articles.externalId r, Articles.title r))
      (articles (db (snd (import lenient (serving sample_feed) 100 module0
                            (Some lemonde) true stocked_world))))
  = [(1, "g1", "First"); (2, "g0", "Other"); (4, "g2", "Second")].
Proof. vm_compute. reflexivity. Qed.

Example get_after_import :
  map wordwithmostvowels
      (match get 150 (snd (import lenient (serving sample_feed) 100 module0
                             (Some lemonde) true empty_world)) with
       | (Normal rows, _) => rows
       | (Throw _, _) => []
       end)
  = ["First"; "Second"].
Proof. vm_compute. reflexivity. Qed.

(** * Further properties of the class *)

(** ** The constructor and the URL [import] works with *)

Lemma valid_feeds_only U this this' v :
  supportedRssFeeds this = supportedRssFeeds this' ->
  isValidUrl U this v = isValidUrl U this' v.
Proof.
  intros Hs. rewrite !isValidUrl_value. unfold isSupportedFeed.
  rewrite Hs. reflexivity.
Qed.

Lemma isValidUrl_true_nonempty U this s :
  isValidUrl U this (JsString s) = Normal true -> s <> "".
Proof.
  rewrite isValidUrl_value. intros [= H] ->. cbn in H. discriminate.
Qed.

(** The module before the body of the constructor runs. *)
Lemma new_RssModule_url U u k :
  url (new_RssModule U u k) =
  match u with
  | Some s =>
      if negb (String.eqb s "")
         && valid U (new_RssModule U None None) (JsString s)
      then s else ""
  | None => ""
  end.
Proof.
  unfold new_RssModule.
  destruct u as [s|], k as [s'|]; cbn;
    repeat match goal with
           | |- context [if ?c then _ else _] => destruct c; cbn
           end; reflexivity.
Qed.

Lemma new_RssModule_primaryKey U u k :
  primaryKey (new_RssModule U u k) =
  match k with
  | Some s => if negb (String.eqb s "") then s else "guid"
  | None => "guid"
  end.
Proof.
  unfold new_RssModule.
  destruct u as [s|], k as [s'|]; cbn;
    repeat match goal with
           | |- context [if ?c then _ else _] => destruct c; cbn
           end; reflexivity.
Qed.

Lemma new_RssModule_valid U u k v :
  isValidUrl U (new_RssModule U u k) v
  = isValidUrl U (new_RssModule U None None) v.
Proof. apply valid_feeds_only. rewrite !new_RssModule_feeds. reflexivity. Qed.

(** A supported URL given to the constructor is kept. *)
Lemma new_RssModule_keeps_valid U u k s :
  u = Some s ->
  isValidUrl U (new_RssModule U u k) (JsString s) = Normal true ->
  url (new_RssModule U u k) = s.
Proof.
  intros -> Hv. rewrite new_RssModule_url. unfold valid.
  rewrite <- (new_RssModule_valid U (Some s) k), Hv.
  rewrite (proj2 (String.eqb_neq s "")); [reflexivity|].
  eapply isValidUrl_true_nonempty. exact Hv.
Qed.

(** X1: what the constructor builds.  The list of supported feeds is the
    fixed one.  [url] is the argument when the argument is a supported
    URL, and the empty string in every other case, so it is never an
    unsupported URL.  [primaryKey] is the argument when one is given and
    not empty, and ["guid"] otherwise, so it is never empty. *)
Theorem new_RssModule_fields (U : string -> bool) (u k : option string) :
  let this := new_RssModule U u k in
  supportedRssFeeds this
    = ["https://www.lemonde.fr/rss/une.xml";
       "https://www.theguardian.com/world/europe-news/rss"]
  /\ (forall s, u = Some s ->
                isValidUrl U this (JsString s) = Normal true -> url this = s)
  /\ (url this = ""
      \/ (u = Some (url this)
          /\ isValidUrl U this (JsString (url this)) = Normal true))
  /\ (forall s, k = Some s -> s <> "" -> primaryKey this = s)
  /\ (primaryKey this = "guid" \/ k = Some (primaryKey this))
  /\ primaryKey this <> "".
Proof.
  intros this. subst this.
  split; [apply new_RssModule_feeds|].
  split; [intros s; apply new_RssModule_keeps_valid|].
  split; [|split; [|split]].
  - rewrite new_RssModule_valid, new_RssModule_url.
    destruct u as [s|]; [|left; reflexivity].
    destruct (String.eqb s ""); cbn [negb andb]; [left; reflexivity|].
    unfold valid.
    destruct (isValidUrl U (new_RssModule U None None) (JsString s))
      as [[]|e] eqn:Hv;
      [right; rewrite Hv; auto|left; reflexivity|left; reflexivity].
  - intros s -> Hs. rewrite new_RssModule_primaryKey.
    rewrite (proj2 (String.eqb_neq s "")); [reflexivity|exact Hs].
  - rewrite new_RssModule_primaryKey. destruct k as [s|]; [|left; reflexivity].
    destruct (String.eqb s ""); cbn [negb]; [left|right]; reflexivity.
  - rewrite new_RssModule_primaryKey. destruct k as [s|]; [|discriminate].
    destruct (String.eqb_spec s ""); cbn [negb]; [discriminate|assumption].
Qed.

Section BeforeSave.

Variable U : string -> bool.
Variable parseURL : string -> Completion Feed.t.

(** X2: [import] with [save] false is a preview.  Whatever the
    arguments, the world is left as it was: no client is taken, no
    statement sent, no row written; and when the URL is accepted the
    completion is the parser's, the document or its error. *)
Theorem import_preview_reads_only
    (now : Date) (this : RssModule) (u : option string) (w : World) :
  snd (import U parseURL now this u false w) = w
  /\ (isValidUrl U this (JsString (resolve this u)) = Normal true ->
      fst (import U parseURL now this u false w)
        = parseURL (resolve this u)).
Proof.
  unfold import. cbv zeta.
  destruct (isValidUrl U this (JsString (resolve this u))) as [[]|e];
    cbn [negb]; (split; [|try discriminate]);
    try reflexivity;
    destruct (parseURL (resolve this u)); reflexivity.
Qed.

(** X3: what stops [import] before the save.  A URL that [isValidUrl]
    refuses gives the "No URL was provided or it was malformed" error
    whatever the parser would find there, and an error of the parser is
    thrown on unchanged; in both cases the world is left as it was, for
    either value of [save]. *)
Theorem import_stops_before_save
    (now : Date) (this : RssModule) (u : option string) (save : bool)
    (w : World) :
  (isValidUrl U this (JsString (resolve this u)) = Normal false ->
   import U parseURL now this u save w = (Throw malformed_url_error, w))
  /\ (forall e,
        isValidUrl U this (JsString (resolve this u)) = Normal true ->
        parseURL (resolve this u) = Throw e ->
        import U parseURL now this u save w = (Throw e, w)).
Proof.
  unfold import. cbv zeta. split.
  - intros ->. reflexivity.
  - intros e -> ->. reflexivity.
Qed.

(** X4: [import] without a URL, or with the empty string, works with the
    URL of the module.  On a module built without a supported URL that
    is the empty string and [import] throws the "No URL was provided or
    it was malformed" error; on a module built with a supported URL it
    does what [import] with that URL does. *)
Theorem import_falls_back_to_module_url
    (now : Date) (u k : option string) (save : bool) (w : World) :
  let this := new_RssModule U u k in
  import U parseURL now this (Some "") save w
    = import U parseURL now this None save w
  /\ (url this = "" ->
      import U parseURL now this None save w
        = (Throw malformed_url_error, w))
  /\ (forall s, u = Some s ->
        isValidUrl U this (JsString s) = Normal true ->
        import U parseURL now this None save w
          = import U parseURL now this (Some s) save w).
Proof.
  intros this. split; [reflexivity|]. split.
  - intros Hurl. unfold import. cbv zeta. cbn [resolve]. rewrite Hurl.
    rewrite isValidUrl_value. reflexivity.
  - intros s Hu Hv.
    pose proof (new_RssModule_keeps_valid U u k s Hu Hv) as Hkeep.
    fold this in Hkeep.
    unfold import. cbv zeta. cbn [resolve]. rewrite Hkeep.
    rewrite (proj2 (String.eqb_neq s ""));
      [reflexivity|eapply isValidUrl_true_nonempty; exact Hv].
Qed.

End BeforeSave.

(** ** Clients, reads and what a save leaves in the table *)

Section Save.

(** X5: [runQuery] gives its client back on every path.  For every
    statement, accepted or refused, the completion is the server's, the
    number of clients held is what it was, and the pool saw one connect
    and one release around the statement. *)
Theorem runQuery_returns_client (now : Date) (s : Statement) (w : World) :
  let r := runQuery now s w in
  fst r = fst (execute now s (db w))
  /\ db (snd r) = snd (execute now s (db w))
  /\ held (snd r) = held w
  /\ log (snd r) = (log w ++ [Connect; Query s; Release])%list.
Proof. cbv zeta. rewrite runQuery_eq. repeat split. Qed.

(** X6: [get] only reads.  It completes normally with one answer per
    stored row, in table order, each carrying the row and a word of the
    row's title as [wordwithmostvowels]; the tables and the number of
    clients held are what they were. *)
Theorem get_reads_only (now : Date) (w : World) :
  exists views,
    fst (get now w) = Normal views
    /\ map row views = articles (db w)
    /\ Forall (fun v =>
                 wordwithmostvowels v
                   = wordWithMostVowels (Articles.title (row v))
                 /\ In (wordwithmostvowels v)
                       (JsString.split " " (Articles.title (row v))))
              views
    /\ db (snd (get now w)) = db w
    /\ held (snd (get now w)) = held w.
Proof.
  rewrite get_eq. eexists. split; [reflexivity|]. cbn [snd db held].
  split; [|split; [|split; reflexivity]].
  - rewrite map_map. cbn [row]. apply map_id.
  - apply List.Forall_forall. intros v Hin.
    apply in_map_iff in Hin as (r & <- & _). cbn [row wordwithmostvowels].
    split; [reflexivity|].
    destruct (wordWithMostVowels_first_best (Articles.title r))
      as (before & after & Heq & _).
    rewrite Heq. apply in_or_app. right. left. reflexivity.
Qed.

(** X7: the client of [saveImportRequest].  When the save completes
    normally, or throws because the document has no [items], as many
    clients are held as before; when it throws out of the loop one more
    is held. *)
Theorem saveImportRequest_client_balance
    (now : Date) (this : RssModule) (results : Feed.t) (w : World) :
  let r := saveImportRequest now this results w in
  (forall v, fst r = Normal v -> held (snd r) = held w)
  /\ (Feed.items results = None ->
      fst r = Throw no_items_error /\ held (snd r) = held w)
  /\ (forall items e,
        Feed.items results = Some items ->
        fst r = Throw e -> held (snd r) = S (held w)).
Proof.
  cbv zeta. pose proof (saveImportRequest_held now this results w) as Hh.
  rewrite saveImportRequest_eq in *.
  destruct (Feed.items results) as [items|].
  - destruct (save_items now this results items (loop_start now results w))
      as [[[]|e] w3]; cbn [fst snd] in *.
    + split; [intros; exact Hh|]. split; [discriminate|]. discriminate.
    + split; [discriminate|]. split; [discriminate|]. intros; exact Hh.
  - cbn [fst snd] in *. split; [discriminate|]. split; [auto|discriminate].
Qed.

(** *** Entries stored by a save that completes *)

Lemma save_items_Normal_stored now this results items : forall w,
  fst (save_items now this results items w) = Normal tt ->
  Forall (fun item =>
            exists k t d p l,
              entry_values this item = Some (k, t, d, p, l)
              /\ In k (externalIds (snd (save_items now this results items w))))
         items.
Proof.
  induction items as [|item rest IH]; intros w Hn; [constructor|].
  rewrite save_items_cons in *.
  pose proof (save_item_Normal now this results item w) as Hitem.
  destruct (save_item now this results item w) as [[[]|e] w1];
    cbn [fst snd] in *; [|discriminate].
  destruct (Hitem eq_refl) as (k & t & d & p & l & Hv & Hin).
  constructor; [|apply IH; exact Hn].
  exists k, t, d, p, l. split; [exact Hv|].
  apply save_items_keeps. exact Hin.
Qed.

(** X8: a save that completes normally has stored every entry.  The
    document had [items], each entry had its five NOT NULL values, the
    external id of each entry is in the table afterwards, and the value
    returned is the document. *)
Theorem saveImportRequest_stores_entries
    (now : Date) (this : RssModule) (results : Feed.t) (w : World)
    (v : Feed.t)
    (Hok : fst (saveImportRequest now this results w) = Normal v) :
  v = results
  /\ exists items,
       Feed.items results = Some items
       /\ Forall (fun item =>
                    exists k t d p l,
                      entry_values this item = Some (k, t, d, p, l)
                      /\ In k (externalIds
                                 (snd (saveImportRequest now this results w))))
                 items.
Proof.
  rewrite saveImportRequest_eq in *.
  destruct (Feed.items results) as [items|]; [|discriminate].
  pose proof (save_items_Normal_stored now this results items
                (loop_start now results w)) as Hst.
  destruct (save_items now this results items (loop_start now results w))
    as [[[]|e] w3]; cbn [fst snd] in *; [|discriminate].
  split; [congruence|]. exists items. split; [reflexivity|].
  exact (Hst eq_refl).
Qed.

End Save.

Lemma saveImportRequest_stores_entries_witness :
  Forall (fun item =>
            exists k t d p l,
              entry_values module0 item = Some (k, t, d, p, l)
              /\ In k (externalIds
                         (snd (saveImportRequest 100 module0 sample_feed
                                 stocked_world))))
         [entry "g1" (Some "First") None; entry "g2" (Some "Second") None].
Proof.
  destruct (saveImportRequest_stores_entries 100 module0 sample_feed
              stocked_world sample_feed)
    as (_ & items & Hitems & Hall).
  - vm_compute. reflexivity.
  - injection Hitems as <-. exact Hall.
Defined.

(** ** Rows a save keeps and rows it adds *)

Section Frame.









(** *** The serial ids *)

Lemma update_row_id k t d p l m r :
  Articles.id (update_row k t d p l m r) = Articles.id r.
Proof. unfold update_row. destruct (String.eqb _ _); reflexivity. Qed.

Lemma save_item_ids_fresh now this results item w :
  ids_fresh (db w) ->
  ids_fresh (db (snd (save_item now this results item w)))
  /\ articles_id_seq (db w)
       < articles_id_seq (db (snd (save_item now this results item w))).
Proof.
  unfold ids_fresh. intros [Hlt Hnd].
  destruct (entry_values this item) as [[[[[k t] d] p] l]|] eqn:Hv.
  - destruct (has_externalId k (articles (db w))) eqn:Hhas.
    + rewrite (save_item_conflict _ _ _ _ _ _ _ _ _ _ Hv Hhas).
      cbn [snd db articles articles_id_seq]. split; [|lia]. split.
      * apply List.Forall_forall. intros r' Hin.
        apply in_map_iff in Hin as (r & <- & Hin).
        rewrite update_row_id. rewrite List.Forall_forall in Hlt.
        specialize (Hlt r Hin). lia.
      * rewrite map_map.
        rewrite (map_ext _ Articles.id (fun r => update_row_id _ _ _ _ _ _ r)).
        exact Hnd.
    + rewrite (save_item_fresh _ _ _ _ _ _ _ _ _ _ Hv Hhas).
      cbn [snd db articles articles_id_seq]. split; [|lia]. split.
      * apply Forall_app. split.
        -- eapply List.Forall_impl; [|exact Hlt]. cbn. intros; lia.
        -- constructor; [cbn; lia|constructor].
      * rewrite map_app. cbn [map Articles.id]. apply NoDup_app.
        split; [exact Hnd|]. split; [|apply NoDup_singleton].
        intros x Hx Hx'. apply list_elem_of_In in Hx, Hx'.
        destruct Hx' as [<-|[]].
        apply in_map_iff in Hx as (r & Hr & Hin).
        rewrite List.Forall_forall in Hlt. specialize (Hlt r Hin). lia.
  - rewrite (save_item_incomplete _ _ _ _ _ Hv).
    cbn [snd db skip_id articles articles_id_seq]. split; [|lia].
    split; [|exact Hnd].
    eapply List.Forall_impl; [|exact Hlt]. cbn. intros; lia.
Qed.

Lemma save_items_ids_fresh now this results items : forall w,
  ids_fresh (db w) ->
  ids_fresh (db (snd (save_items now this results items w)))
  /\ articles_id_seq (db w)
       <= articles_id_seq (db (snd (save_items now this results items w))).
Proof.
  induction items as [|item rest IH]; intros w Hf; [split; [exact Hf|cbn; lia]|].
  rewrite save_items_cons.
  destruct (save_item_ids_fresh now this results item w Hf) as [Hf1 Hlt].
  destruct (save_item now this results item w) as [[[]|e] w1];
    cbn [snd] in *.
  - destruct (IH w1 Hf1) as [Hf2 Hle]. split; [exact Hf2|lia].
  - split; [exact Hf1|lia].
Qed.

(** X10: the ids of the articles stay pairwise distinct.  If before a
    save every id is below the sequence and no two rows share an id, the
    same holds after it, however the save ends; the sequence never goes
    back. *)
Theorem saveImportRequest_ids_fresh
    (now : Date) (this : RssModule) (results : Feed.t) (w : World)
    (Hfresh : ids_fresh (db w)) :
  ids_fresh (db (snd (saveImportRequest now this results w)))
  /\ articles_id_seq (db w)
       <= articles_id_seq (db (snd (saveImportRequest now this results w))).
Proof.
  rewrite saveImportRequest_eq.
  destruct (Feed.items results) as [items|].
  - destruct (save_items_ids_fresh now this results items
                (loop_start now results w)) as [Hf Hle].
    { rewrite loop_start_eq, after_ledger_eq. exact Hfresh. }
    assert (Hs : articles_id_seq (db (loop_start now results w))
                 = articles_id_seq (db w))
      by (rewrite loop_start_eq, after_ledger_eq; reflexivity).
    rewrite Hs in Hle.
    destruct (save_items now this results items (loop_start now results w))
      as [[[]|e] w3]; cbn [snd client_release db] in *; auto.
  - rewrite after_ledger_eq. cbn [snd db]. split; [exact Hfresh|cbn; lia].
Qed.

End Frame.

Lemma saveImportRequest_ids_fresh_witness :
  ids_fresh (db stocked_world)
  /\ ids_fresh (db (snd (saveImportRequest 100 module0 sample_feed
                           stocked_world))).
Proof.
  assert (H : ids_fresh (db stocked_world)).
  { split.
    - cbn. repeat constructor.
    - apply (bool_decide_unpack _). vm_compute. exact I. }
  split; [exact H|].
  exact (proj1 (saveImportRequest_ids_fresh 100 module0 sample_feed
                  stocked_world H)).
Defined.

(** ** The last entry under an id decides the row *)

Section LastWrite.

Lemma save_items_app now this results a b : forall w,
  save_items now this results (a ++ b) w =
  match save_items now this results a w with
  | (Normal _, w1) => save_items now this results b w1
  | (Throw e, w1) => (Throw e, w1)
  end.
Proof.
  induction a as [|x a IH]; intros w; [reflexivity|].
  cbn [app]. rewrite !save_items_cons.
  destruct (save_item now this results x w) as [[[]|e] w1];
    [apply IH|reflexivity].
Qed.

Lemma filter_map_fixed {A} (p : A -> bool) (f : A -> A) l :
  (forall x, p (f x) = p x) ->
  (forall x, p x = true -> f x = x) ->
  List.filter p (map f l) = List.filter p l.
Proof.
  intros Hp Hf. induction l as [|x l IH]; [reflexivity|].
  cbn [map List.filter]. rewrite Hp.
  destruct (p x) eqn:Hx; [rewrite (Hf x Hx), IH|rewrite IH]; reflexivity.
Qed.

Lemma rows_of_none k w :
  has_externalId k (articles (db w)) = false -> rows_of k w = [].
Proof.
  unfold rows_of, has_externalId.
  induction (articles (db w)) as [|r rows IH]; [reflexivity|].
  cbn [existsb List.filter]. intros H. apply orb_false_iff in H as [Hr Hrest].
  rewrite Hr. apply IH. exact Hrest.
Qed.

(** A turn of the loop for an entry under another id, or without an id,
    leaves the rows under [k] as they are. *)
Lemma save_item_rows_of_other now this results item w k :
  Item.props item !! primaryKey this <> Some k ->
  rows_of k (snd (save_item now this results item w)) = rows_of k w.
Proof.
  intros Hne.
  destruct (entry_values this item) as [[[[[k' t] d] p] l]|] eqn:Hv.
  - assert (Hk' : k' <> k).
    { apply entry_values_Some in Hv as (Hk' & _). congruence. }
    destruct (has_externalId k' (articles (db w))) eqn:Hhas.
    + rewrite (save_item_conflict _ _ _ _ _ _ _ _ _ _ Hv Hhas).
      unfold rows_of. cbn [snd db articles]. apply filter_map_fixed.
      * intros r. rewrite update_row_externalId. reflexivity.
      * intros r Hr. apply String.eqb_eq in Hr. unfold update_row.
        destruct (String.eqb_spec (Articles.externalId r) k');
          [congruence|reflexivity].
    + rewrite (save_item_fresh _ _ _ _ _ _ _ _ _ _ Hv Hhas).
      unfold rows_of. cbn [snd db articles]. rewrite List.filter_app.
      cbn [List.filter Articles.externalId].
      rewrite (proj2 (String.eqb_neq k' k) Hk'). apply app_nil_r.
  - rewrite (save_item_incomplete _ _ _ _ _ Hv). reflexivity.
Qed.

Lemma save_items_rows_of_other now this results k items : forall w,
  Forall (fun item => Item.props item !! primaryKey this <> Some k) items ->
  rows_of k (snd (save_items now this results items w)) = rows_of k w.
Proof.
  induction items as [|item rest IH]; intros w Hall; [reflexivity|].
  inversion Hall as [|? ? Hitem Hrest]; subst.
  rewrite save_items_cons.
  pose proof (save_item_rows_of_other now this results item w k Hitem) as H1.
  destruct (save_item now this results item w) as [[[]|e] w1];
    cbn [snd] in *.
  - rewrite (IH w1 Hrest). exact H1.
  - exact H1.
Qed.

(** The turn of the loop for an entry leaves at least one row under the
    entry's id, and every row under it carries the entry's four texts. *)
Lemma save_item_rows_of_own now this results item w k t d p l :
  entry_values this item = Some (k, t, d, p, l) ->
  rows_of k (snd (save_item now this results item w)) <> []
  /\ Forall (fun r => Articles.title r = t
                      /\ Articles.description r = d
                      /\ Articles.publicationDate r = p
                      /\ Articles.link r = l)
            (rows_of k (snd (save_item now this results item w))).
Proof.
  intros Hv.
  destruct (has_externalId k (articles (db w))) eqn:Hhas.
  - rewrite (save_item_conflict _ _ _ _ _ _ _ _ _ _ Hv Hhas).
    unfold rows_of. cbn [snd db articles]. split.
    + apply existsb_exists in Hhas as (r & Hin & Hr).
      intros Hnil.
      assert (Hin' : In (update_row k t d p l
                           (Some (nullish (image_url (Item.image item)) "")) r)
                        (List.filter
                           (fun r => String.eqb (Articles.externalId r) k)
                           (map (update_row k t d p l
                                   (Some (nullish (image_url (Item.image item))
                                            "")))
                                (articles (db w))))).
      { apply List.filter_In. split; [apply in_map; exact Hin|].
        rewrite update_row_externalId. exact Hr. }
      rewrite Hnil in Hin'. destruct Hin'.
    + apply List.Forall_forall. intros r' Hin.
      apply List.filter_In in Hin as [Hin Hr'].
      apply in_map_iff in Hin as (r & <- & _).
      rewrite update_row_externalId in Hr'. unfold update_row.
      rewrite Hr'. cbn. auto.
  - rewrite (save_item_fresh _ _ _ _ _ _ _ _ _ _ Hv Hhas).
    unfold rows_of. cbn [snd db articles]. rewrite List.filter_app.
    fold (rows_of k w). rewrite (rows_of_none k w Hhas).
    cbn [app List.filter Articles.externalId]. rewrite String.eqb_refl.
    split; [discriminate|]. repeat constructor.
Qed.

(** X11: the last write wins.  After a save that completes normally, for
    an entry that is the last of the document under its external id, the
    table has at least one row under that id and every such row carries
    the title, description, publication date and link of that entry,
    whatever earlier entries under the same id carried. *)
Theorem saveImportRequest_last_write_wins
    (now : Date) (this : RssModule) (results : Feed.t) (w : World)
    (pre : list Item.t) (item : Item.t) (post : list Item.t)
    (k t d p l : string)
    (Hitems : Feed.items results = Some (pre ++ item :: post)%list)
    (Hvalues : entry_values this item = Some (k, t, d, p, l))
    (Hlast : Forall (fun later =>
                       Item.props later !! primaryKey this <> Some k) post)
    (Hok : fst (saveImportRequest now this results w) = Normal results) :
  let rows := rows_of k (snd (saveImportRequest now this results w)) in
  rows <> []
  /\ Forall (fun r => Articles.title r = t
                      /\ Articles.description r = d
                      /\ Articles.publicationDate r = p
                      /\ Articles.link r = l) rows.
Proof.
  cbv zeta. rewrite saveImportRequest_eq, Hitems in *.
  rewrite save_items_app in *.
  destruct (save_items now this results pre (loop_start now results w))
    as [[[]|e] w1]; [|discriminate].
  rewrite save_items_cons in *.
  pose proof (save_item_rows_of_own now this results item w1 k t d p l Hvalues)
    as Hown.
  destruct (save_item now this results item w1) as [[[]|e] w2];
    [|discriminate].
  cbn [snd] in Hown.
  pose proof (save_items_rows_of_other now this results k post w2 Hlast)
    as Hpost.
  destruct (save_items now this results post w2) as [[[]|e] w3];
    [|discriminate].
  cbn [snd] in *. unfold rows_of in *. cbn [client_release snd db] in *.
  rewrite Hpost. exact Hown.
Qed.

End LastWrite.

Lemma saveImportRequest_last_write_wins_witness :
  let rows := rows_of "g1" (snd (saveImportRequest 100 module0 repeating_feed
                                   stocked_world)) in
  rows <> []
  /\ Forall (fun r => Articles.title r = "First, revised"
                      /\ Articles.description r = "text of g1"
                      /\ Articles.publicationDate r
                           = "Mon, 02 Nov 2026 10:00:00 GMT"
                      /\ Articles.link r = "https://example.org/g1") rows.
Proof.
  apply (saveImportRequest_last_write_wins 100 module0 repeating_feed
           stocked_world
           [entry "g1" (Some "First") None;
            entry "g2" (Some "Second") None]
           (entry "g1" (Some "First, revised") None) []).
  - reflexivity.
  - vm_compute. reflexivity.
  - constructor.
  - vm_compute. reflexivity.
Defined.

(** ** Importing again and again *)

Section Settled.

Variable U : string -> bool.
Variable parseURL : string -> Completion Feed.t.

Lemma rewrite_row_identity this items : forall r,
  same_identity r (rewrite_row this items r).
Proof.
  induction items as [|item rest IH]; intros r; cbn [rewrite_row].
  - unfold same_identity. auto.
  - destruct (entry_values this item) as [[[[[k t] d] p] l]|];
      [|unfold same_identity; auto].
    destruct (IH (update_row k t d p l
                    (Some (nullish (image_url (Item.image item)) "")) r))
      as (Hi & He & Hd).
    unfold same_identity.
    rewrite Hi, He, Hd, update_row_id, update_row_externalId.
    repeat split. unfold update_row. destruct (String.eqb _ _); reflexivity.
Qed.

Lemma rewrite_row_untouched this items : forall r,
  touches this items (Articles.externalId r) = false ->
  rewrite_row this items r = r.
Proof.
  induction items as [|item rest IH]; intros r Ht; cbn [rewrite_row touches] in *;
    [reflexivity|].
  destruct (entry_values this item) as [[[[[k t] d] p] l]|]; [|reflexivity].
  apply orb_false_iff in Ht as [Hk Hrest].
  assert (Hu : update_row k t d p l
                 (Some (nullish (image_url (Item.image item)) "")) r = r).
  { unfold update_row. rewrite String.eqb_sym, Hk. reflexivity. }
  rewrite Hu. apply IH. exact Hrest.
Qed.

(** Two rows with the same identity end up equal once an UPDATE of the
    loop is for their id. *)
Lemma rewrite_row_merges this items : forall r r',
  same_identity r r' ->
  r' = r \/ touches this items (Articles.externalId r) = true ->
  rewrite_row this items r' = rewrite_row this items r.
Proof.
  induction items as [|item rest IH]; intros r r' Hid Hor;
    cbn [rewrite_row touches] in *.
  - destruct Hor as [->|]; [reflexivity|discriminate].
  - destruct (entry_values this item) as [[[[[k t] d] p] l]|];
      [|destruct Hor as [->|]; [reflexivity|discriminate]].
    destruct Hid as (Hi & He & Hd).
    destruct (String.eqb_spec k (Articles.externalId r)) as [Hk|Hk].
    + assert (Heq : update_row k t d p l
                      (Some (nullish (image_url (Item.image item)) "")) r'
                    = update_row k t d p l
                        (Some (nullish (image_url (Item.image item)) "")) r).
      { unfold update_row. rewrite He, <- Hk, String.eqb_refl.
        rewrite Hi, Hd. reflexivity. }
      rewrite Heq. reflexivity.
    + assert (Hu : forall x, Articles.externalId x = Articles.externalId r ->
                update_row k t d p l
                  (Some (nullish (image_url (Item.image item)) "")) x = x).
      { intros x Hx. unfold update_row.
        rewrite (proj2 (String.eqb_neq (Articles.externalId x) k));
          [reflexivity|congruence]. }
      rewrite (Hu r eq_refl), (Hu r' He). apply IH.
      * unfold same_identity. auto.
      * destruct Hor as [->|Ht]; [left; reflexivity|right].
        cbn [orb] in Ht. exact Ht.
Qed.

Lemma rewrite_row_idem this items r :
  rewrite_row this items (rewrite_row this items r)
  = rewrite_row this items r.
Proof.
  destruct (touches this items (Articles.externalId r)) eqn:Ht.
  - apply rewrite_row_merges; [apply rewrite_row_identity|right; exact Ht].
  - rewrite !(rewrite_row_untouched this items r Ht). reflexivity.
Qed.

(** The loop stores the id of every entry it reaches. *)
Lemma save_items_touched_stored now this results items : forall w k,
  touches this items k = true ->
  In k (externalIds (snd (save_items now this results items w))).
Proof.
  induction items as [|item rest IH]; intros w k Ht; cbn [touches] in Ht;
    [discriminate|].
  rewrite save_items_cons.
  destruct (entry_values this item) as [[[[[k' t] d] p] l]|] eqn:Hv;
    [|discriminate].
  pose proof (save_item_complete_Normal now this results item w _ Hv) as Hn.
  pose proof (save_item_Normal now this results item w Hn)
    as (k2 & t2 & d2 & p2 & l2 & Hv2 & Hin).
  rewrite Hv in Hv2. injection Hv2 as <- <- <- <- <-.
  destruct (save_item now this results item w) as [[[]|e] w1];
    cbn [fst snd] in *; [|discriminate].
  apply orb_true_iff in Ht as [Hk|Hrest].
  - apply String.eqb_eq in Hk. subst k'. apply save_items_keeps. exact Hin.
  - apply IH. exact Hrest.
Qed.

(** When the ids of the entries the loop reaches are all stored, the
    loop adds nothing and rewrites each row by [rewrite_row]. *)
Lemma save_items_all_taken now this results items : forall w,
  (forall k, touches this items k = true -> In k (externalIds w)) ->
  articles (db (snd (save_items now this results items w)))
  = map (rewrite_row this items) (articles (db w)).
Proof.
  induction items as [|item rest IH]; intros w Hall.
  - cbn. symmetry. apply map_id.
  - rewrite save_items_cons. cbn [rewrite_row].
    destruct (entry_values this item) as [[[[[k t] d] p] l]|] eqn:Hv.
    + assert (Hhas : has_externalId k (articles (db w)) = true).
      { apply has_externalId_In. apply Hall. cbn [touches]. rewrite Hv.
        rewrite String.eqb_refl. reflexivity. }
      rewrite (save_item_conflict _ _ _ _ _ _ _ _ _ _ Hv Hhas).
      rewrite IH.
      * cbn [db articles]. rewrite map_map. reflexivity.
      * intros k' Hk'. unfold externalIds. cbn [db articles].
        rewrite map_update_row_externalId. apply Hall.
        cbn [touches]. rewrite Hv, Hk'. apply orb_true_r.
    + rewrite (save_item_incomplete _ _ _ _ _ Hv).
      cbn [snd db skip_id articles]. symmetry. apply map_id.
Qed.

Lemma saveImportRequest_all_taken now this results w :
  (forall k, touches this (items_of results) k = true ->
             In k (externalIds w)) ->
  articles (db (snd (saveImportRequest now this results w)))
  = map (rewrite_row this (items_of results)) (articles (db w)).
Proof.
  intros Hall. rewrite saveImportRequest_eq. unfold items_of in *.
  destruct (Feed.items results) as [items|].
  - pose proof (save_items_all_taken now this results items
                  (loop_start now results w)) as Hl.
    rewrite externalIds_loop_start in Hl. specialize (Hl Hall).
    assert (Hs : articles (db (loop_start now results w)) = articles (db w))
      by (rewrite loop_start_eq, after_ledger_eq; reflexivity).
    rewrite Hs in Hl.
    destruct (save_items now this results items (loop_start now results w))
      as [[[]|e] w3]; exact Hl.
  - rewrite after_ledger_eq. cbn. symmetry. apply map_id.
Qed.

Lemma saveImportRequest_touched_stored now this results w k :
  touches this (items_of results) k = true ->
  In k (externalIds (snd (saveImportRequest now this results w))).
Proof.
  intros Ht. rewrite externalIds_saveImportRequest. unfold items_of in Ht.
  destruct (Feed.items results) as [items|]; [|discriminate].
  apply save_items_touched_stored. exact Ht.
Qed.

(** X12: from the second import on, importing the same document again
    leaves the articles exactly as they are.  Of three imports in a row
    with the document at the URL unchanged, the third leaves every row
    of the table as the second left it, field for field. *)
Theorem import_settles
    (now1 now2 now3 : Date) (this : RssModule) (u : option string)
    (w : World) :
  let w1 := snd (import U parseURL now1 this u true w) in
  let w2 := snd (import U parseURL now2 this u true w1) in
  let w3 := snd (import U parseURL now3 this u true w2) in
  articles (db w3) = articles (db w2).
Proof.
  cbv zeta.
  destruct (isValidUrl U this (JsString (resolve this u)))
    as [[]|e] eqn:Hvalid;
    [|rewrite !import_no_save by (left; congruence); reflexivity..].
  destruct (parseURL (resolve this u)) as [results|e] eqn:Hfetch;
    [|rewrite !import_no_save by (right; eauto); reflexivity].
  rewrite !(import_save_eq U parseURL _ _ _ results) by assumption.
  cbn [snd].
  set (w1 := snd (saveImportRequest now1 this results w)).
  set (w2 := snd (saveImportRequest now2 this results w1)).
  assert (H1 : forall k, touches this (items_of results) k = true ->
                         In k (externalIds w1))
    by (intros k; apply saveImportRequest_touched_stored).
  assert (H2 : forall k, touches this (items_of results) k = true ->
                         In k (externalIds w2))
    by (intros k; apply saveImportRequest_touched_stored).
  rewrite (saveImportRequest_all_taken now3 this results w2 H2).
  subst w2. rewrite (saveImportRequest_all_taken now2 this results w1 H1).
  rewrite map_map. apply map_ext. intros r. apply rewrite_row_idem.
Qed.

End Settled.

(** ** The handlers *)

Section Handlers.

Variable U : string -> bool.
Variable parseURL : string -> Completion Feed.t.

Lemma isValid_value req :
  isValid U req =
  match siteRssUrl req with
  | QString s =>
      if String.eqb s "" then Invalid required_message
      else match isValidUrl U (rssModule U) (JsString s) with
           | Normal true => Valid
           | _ => Invalid unsupported_message
           end
  | _ => Invalid required_message
  end.
Proof.
  unfold isValid, valid. cbv zeta.
  destruct (siteRssUrl req) as [|s|l|]; try reflexivity.
  cbn [query_value falsy typeof_string negb]. rewrite orb_false_r.
  destruct (String.eqb s ""); [reflexivity|].
  destruct (isValidUrl U (rssModule U) (JsString s)) as [[]|e]; reflexivity.
Qed.

Lemma post_import_accepted now req w s results :
  siteRssUrl req = QString s ->
  isValidUrl U (rssModule U) (JsString s) = Normal true ->
  parseURL s = Normal results ->
  post_import U parseURL now req w
  = (Normal {| status := 201; body := FeedBody results |},
     snd (saveImportRequest now (rssModule U) results w)).
Proof.
  intros Hq Hv Hp. unfold post_import. rewrite isValid_value, Hq.
  assert (Hs : s <> "") by (eapply isValidUrl_true_nonempty; exact Hv).
  rewrite (proj2 (String.eqb_neq s "") Hs), Hv. cbn [String_of].
  unfold bind.
  rewrite (import_save_eq U parseURL now (rssModule U) (Some s) results).
  - reflexivity.
  - cbn [resolve]. rewrite (proj2 (String.eqb_neq s "") Hs). exact Hv.
  - cbn [resolve]. rewrite (proj2 (String.eqb_neq s "") Hs). exact Hp.
Qed.

(** X13: the answers of [POST /api/articles/import].  The handler
    answers 422 with the "required" message when the parameter is
    absent, empty or not one string, and 422 with the "supported URL"
    message when it is a string the module refuses; in both cases the
    world is left as it was.  For a string the module accepts, the check
    [import] makes itself never fails: when the parser finds a document
    the answer is 201 with that document, whatever becomes of the save,
    and when the parser throws, the handler throws that error with
    nothing sent and nothing stored. *)
Theorem post_import_answers (now : Date) (req : Request) (w : World) :
  let r := post_import U parseURL now req w in
  ((forall s, siteRssUrl req = QString s -> s = "") ->
   r = (Normal {| status := 422; body := ErrorBody required_message |}, w))
  /\ (forall s, siteRssUrl req = QString s -> s <> "" ->
       isValidUrl U (rssModule U) (JsString s) = Normal false ->
       r = (Normal {| status := 422;
                      body := ErrorBody unsupported_message |}, w))
  /\ (forall s results,
       siteRssUrl req = QString s ->
       isValidUrl U (rssModule U) (JsString s) = Normal true ->
       parseURL s = Normal results ->
       r = (Normal {| status := 201; body := FeedBody results |},
            snd (saveImportRequest now (rssModule U) results w)))
  /\ (forall s e,
       siteRssUrl req = QString s ->
       isValidUrl U (rssModule U) (JsString s) = Normal true ->
       parseURL s = Throw e ->
       r = (Throw e, w)).
Proof.
  cbv zeta. split; [|split; [|split]].
  - intros Hs. unfold post_import. rewrite isValid_value.
    destruct (siteRssUrl req) as [|s|l|]; try reflexivity.
    rewrite (Hs s eq_refl). reflexivity.
  - intros s Hq Hs Hv. unfold post_import. rewrite isValid_value, Hq.
    rewrite (proj2 (String.eqb_neq s "") Hs), Hv. reflexivity.
  - intros s results Hq Hv Hp.
    apply (post_import_accepted now req w s results); assumption.
  - intros s e Hq Hv Hp. unfold post_import. rewrite isValid_value, Hq.
    assert (Hs : s <> "") by (eapply isValidUrl_true_nonempty; exact Hv).
    rewrite (proj2 (String.eqb_neq s "") Hs), Hv. cbn [String_of].
    unfold bind, import. cbv zeta. cbn [resolve].
    rewrite (proj2 (String.eqb_neq s "") Hs), Hv, Hp. reflexivity.
Qed.



End Handlers.


(** ** Titles without a word *)

Lemma split_chars sep s : forall w c,
  In w (JsString.split sep s) -> JsString.occurs c w -> JsString.occurs c s.
Proof.
  induction s as [|a rest IH]; intros w c; cbn [JsString.split].
  - intros [<-|[]] H. exact H.
  - destruct (Ascii.eqb_spec a sep) as [->|Hne].
    + intros [<-|Hin] Hc; [destruct Hc|].
      cbn. right. eapply IH; eassumption.
    + pose proof (split_not_nil sep rest) as Hnil.
      destruct (JsString.split sep rest) as [|w0 ws]; [congruence|].
      intros [<-|Hin] Hc.
      * cbn in Hc. destruct Hc as [Hc|Hc]; [left; exact Hc|right].
        apply (IH w0); [left; reflexivity|exact Hc].
      * cbn. right. apply (IH w); [right; exact Hin|exact Hc].
Qed.

Lemma occurs_append c a b :
  JsString.occurs c (a ++ b) -> JsString.occurs c a \/ JsString.occurs c b.
Proof.
  induction a as [|x a IH]; cbn; [auto|].
  intros [H|H]; [auto|]. destruct (IH H); auto.
Qed.

Lemma concat_of_empty_words sep ws c :
  Forall (fun w => w = "") ws ->
  JsString.occurs c (String.concat (String sep "") ws) -> c = sep.
Proof.
  induction ws as [|w ws IH]; intros Hall Hc; [destruct Hc|].
  inversion Hall as [|? ? Hw Hrest]; subst.
  destruct ws as [|w' ws]; cbn [String.concat] in *; [destruct Hc|].
  cbn in Hc. destruct Hc as [Hc|Hc]; [congruence|].
  apply IH; assumption.
Qed.

(** X15: the result is the empty string exactly for a title without a
    word: [wordWithMostVowels] returns the empty string if and only if
    the title holds nothing but space characters (the empty title
    included); on every other title it returns a word with at least one
    character. *)
Theorem wordWithMostVowels_empty_iff (title : string) :
  wordWithMostVowels title = ""
  <-> (forall c, JsString.occurs c title -> c = " "%char).
Proof.
  destruct (wordWithMostVowels_first_best title)
    as (before & after & Heq & Hbef & Haft).
  split.
  - intros Hr c Hc. rewrite Hr in *.
    assert (Hall : Forall (fun w => w = "") (JsString.split " " title)).
    { rewrite Heq. apply Forall_app. split; [|constructor; [reflexivity|]].
      - apply List.Forall_forall. intros w Hin. specialize (Hbef w Hin).
        unfold beats in Hbef. cbn in Hbef. lia.
      - apply List.Forall_forall. intros w Hin.
        destruct (decide (w = "")) as [|Hn]; [assumption|].
        exfalso. apply (Haft w Hin). apply beats_empty. exact Hn. }
    rewrite <- (split_concat " " title) in Hc.
    eapply concat_of_empty_words; eassumption.
  - intros Hsp.
    assert (Hin : In (wordWithMostVowels title) (JsString.split " " title)).
    { rewrite Heq. apply in_or_app. right. left. reflexivity. }
    destruct (wordWithMostVowels title) as [|c r]; [reflexivity|].
    exfalso. apply (split_no_sep " " title _ Hin).
    left. apply Hsp. apply (split_chars " " title _ c Hin). left. reflexivity.
Qed.

(** ** The first import of an entry *)


